(** * Airbnb Amsterdam dashboard (streamlit_app.py): filter stage, rating
      adapter and enrichment loop, embedded and verified.

    The script reads a six-column table, keeps the rows under two numeric
    thresholds, shows them, and for the rows the user ticks calls a reverse
    geocoder and a review service.  Tables are lists of rows in positional
    order; the two external services are oracles that see the history of
    calls made so far, and every call is recorded in a trace. *)

From Stdlib Require Import ZArith QArith Lia List String Ascii.
From Stdlib Require Import DecimalString.
From Stdlib Require Decimal DecimalPos.
From stdpp Require Import base option list gmap.
Import ListNotations.

Local Open Scope string_scope.
Local Open Scope list_scope.
Local Open Scope Z_scope.

(** ** Column values *)

(** A float64 cell as pandas reads it from the CSV file: a finite value (every
    finite double is a rational; an int64 cell [z] is [Finite (inject_Z z)]),
    a missing value, or an infinity. *)
Inductive f64 : Type :=
  | NaN
  | NegInf
  | Finite (q : Q)
  | PosInf.

(** [x <= k] for a float cell and a Python int [k], as numpy evaluates it
    element-wise: every comparison with NaN is False.  [st.number_input]
    with an int [value] and [step] returns an int within the browser's safe
    range, so the int is converted to a double exactly. *)
Definition f64_le_int (x : f64) (k : Z) : bool :=
  match x with
  | NaN => false
  | NegInf => true
  | Finite q => Qle_bool q (inject_Z k)
  | PosInf => false
  end.

(** The same comparison as a proposition: the reading of [x <= k] in the
    specification. *)
Definition f64_le (x : f64) (k : Z) : Prop :=
  match x with
  | NaN => False
  | NegInf => True
  | Finite q => (q <= inject_Z k)%Q
  | PosInf => False
  end.

(** ** The loaded table *)

(** One row of the frame built by [pd.read_csv(..., names=[...])], one field
    per column, in the order of [names]. *)
Record Listing : Type := mkListing {
  Airbnb_Listing_ID : f64;
  Price : f64;
  Latitude : f64;
  Longitude : f64;
  Dist_m_from_loc : f64;
  Location : f64
}.

Definition DataFrame : Type := list Listing.

(** [series <= k]: the boolean Series of an element-wise comparison. *)
Definition series_le (series : list f64) (k : Z) : list bool :=
  map (fun x => f64_le_int x k) series.

(** [df[mask]]: boolean-mask indexing.  The result is a new frame holding the
    rows whose mask entry is True, in their original order.  In the script the
    mask is always computed from [df] itself, so both have the same length. *)
Fixpoint getitem_mask {A : Type} (df : list A) (mask : list bool) : list A :=
  match df, mask with
  | r :: df', b :: mask' =>
      if b then r :: getitem_mask df' mask' else getitem_mask df' mask'
  | _, _ => []
  end.

(** Lines 138 and 140: the two successive filters.
<<
    dataframe = dataframe[dataframe["Price"] <= max_budget]
    dataframe = dataframe[dataframe["Dist.(m) from loc."] <= max_distance]
>> *)
Definition filter_price (df : DataFrame) (max_budget : Z) : DataFrame :=
  getitem_mask df (series_le (map Price df) max_budget).

Definition filter_distance (df : DataFrame) (max_distance : Z) : DataFrame :=
  getitem_mask df (series_le (map Dist_m_from_loc df) max_distance).

Definition filter_stage (df : DataFrame) (max_budget max_distance : Z) : DataFrame :=
  filter_distance (filter_price df max_budget) max_distance.

(** The row predicate of the specification, as a boolean and as a
    proposition. *)
Definition keepb (max_budget max_distance : Z) (r : Listing) : bool :=
  f64_le_int (Price r) max_budget && f64_le_int (Dist_m_from_loc r) max_distance.

Definition keeps (max_budget max_distance : Z) (r : Listing) : Prop :=
  f64_le (Price r) max_budget /\ f64_le (Dist_m_from_loc r) max_distance.

(** The scenario table of the specification: two rows that differ in price. *)
Definition row_of (id price dist : Z) : Listing :=
  mkListing (Finite (inject_Z id)) (Finite (inject_Z price))
            (Finite (5237 # 100)) (Finite (489 # 100))
            (Finite (inject_Z dist)) (Finite 0).

Definition scenario_table : DataFrame := [row_of 1 50 500; row_of 2 150 500].

(** ** Exceptions and the effect monad *)

(** The Python exceptions that the modelled code can raise, and the ones the
    two network clients raise on their own ([ServiceError], with the client's
    message). *)
Inductive exn : Type :=
  | ValueError
  | AttributeError
  | IndexError
  | IntCastingNaNError
  | TypeError
  | ServiceError (what : string).

Inductive result (A : Type) : Type :=
  | Ok (a : A)
  | Raise (e : exn).
Arguments Ok {A} a.
Arguments Raise {A} e.

Global Instance result_ret : MRet result := fun A a => Ok a.
Global Instance result_bind : MBind result := fun A B k m =>
  match m with
  | Ok a => k a
  | Raise e => Raise e
  end.

(** A request sent to one of the two external services. *)
Inductive call : Type :=
  | CallReverse (lat lon : f64)
  | CallGetReviews (listing_id offset limit : Z).

(** Code that talks to the services: it reads the history of the requests
    made so far and extends it; an exception ends the computation and keeps
    the history reached. *)
Definition M (A : Type) : Type := list call -> result A * list call.

Global Instance M_ret : MRet M := fun A a h => (Ok a, h).
Global Instance M_bind : MBind M := fun A B k m h =>
  match m h with
  | (Ok a, h') => k a h'
  | (Raise e, h') => (Raise e, h')
  end.

Definition lift {A : Type} (r : result A) : M A := fun h => (r, h).
Definition raise {A : Type} (e : exn) : M A := fun h => (Raise e, h).

(** What the geocoder hands back for a coordinate pair that it resolves: the
    script reads [location.raw["display_name"]] only. *)
Record GeoLocation : Type := mkGeoLocation { display_name : string }.

(** ** Double-precision arithmetic *)

(** numpy computes in IEEE binary64 with rounding to nearest, ties to even:
    the result of an operation is the exact result rounded.  A finite double
    is [m * 2^e] with [m] below 2^53 and [e] from -1074 to 971. *)

(** The integer nearest to [num / den], the even one of two equally near
    (for [num >= 0] and [den > 0]). *)
Definition round_half_even (num den : Z) : Z :=
  let q := num / den in
  let r := num mod den in
  match 2 * r ?= den with
  | Lt => q
  | Gt => q + 1
  | Eq => if Z.even q then q else q + 1
  end.

(** [N / D] divided by [2^e], as a fraction. *)
Definition scale_num (N e : Z) : Z := N * 2 ^ Z.max 0 (- e).
Definition scale_den (D e : Z) : Z := D * 2 ^ Z.max 0 e.

(** The exponent [e] of the double nearest to [N / D]: the one for which
    [N / D / 2^e] lies from 2^52 up to 2^53, or -1074 when the value is too
    small for that (a subnormal). *)
Definition float_exponent (N D : Z) : Z :=
  let e1 := Z.log2 N - Z.log2 D - 52 in
  let e := if scale_num N e1 <? 2 ^ 52 * scale_den D e1 then e1 - 1 else e1 in
  Z.max e (-1074).

(** The double nearest to the positive rational [N / D]; [None] when it is
    2^1024 or more, which overflows. *)
Definition round64_pos (N D : Z) : option Q :=
  let e := float_exponent N D in
  let m := round_half_even (scale_num N e) (scale_den D e) in
  if (971 <? e) || ((e =? 971) && (m =? 2 ^ 53)) then None
  else Some (Qred (m * 2 ^ Z.max 0 e # Z.to_pos (2 ^ Z.max 0 (- e)))).

(** Rounding of an exact result to a double. *)
Definition round64 (q : Q) : f64 :=
  match Qnum q with
  | 0 => Finite 0
  | Z.pos N =>
      match round64_pos (Z.pos N) (Z.pos (Qden q)) with
      | Some v => Finite v
      | None => PosInf
      end
  | Z.neg N =>
      match round64_pos (Z.pos N) (Z.pos (Qden q)) with
      | Some v => Finite (- v)
      | None => NegInf
      end
  end.

(** [x + y] on doubles. *)
Definition f64_add (x y : f64) : f64 :=
  match x, y with
  | NaN, _ | _, NaN => NaN
  | PosInf, NegInf | NegInf, PosInf => NaN
  | PosInf, _ | _, PosInf => PosInf
  | NegInf, _ | _, NegInf => NegInf
  | Finite a, Finite b => round64 (a + b)
  end.

(** [x / n] for a double and an element count: 0/0 is NaN and a non-zero
    value over 0 is an infinity. *)
Definition f64_div_count (x : f64) (n : nat) : f64 :=
  match n, x with
  | _, NaN => NaN
  | O, Finite q => if Qeq_bool q 0 then NaN else if Qle_bool 0 q then PosInf else NegInf
  | S _, Finite q => round64 (q / inject_Z (Z.of_nat n))
  | _, PosInf => PosInf
  | _, NegInf => NegInf
  end.

(** A whole number as a double (exactly so below 2^53 in absolute value). *)
Definition whole (z : Z) : f64 := Finite (inject_Z z).

Definition zsum (l : list Z) : Z := fold_right Z.add 0 l.
Definition zabs (l : list Z) : Z := fold_right (fun z a => Z.abs z + a) 0 l.

(** Rounding toward zero. *)
Definition Qtrunc (q : Q) : Z := Z.quot (Qnum q) (Z.pos (Qden q)).

(** The range of a 64-bit signed integer. *)
Definition in_int64 (z : Z) : bool := (- 2 ^ 63 <=? z) && (z <=? 2 ^ 63 - 1).

(** *** The sum of a float64 array

    [np.add.reduce] adds the elements of a contiguous array with the loop
    [pairwise_sum] of numpy's [loops_utils.h]: fewer than eight elements are
    added one after the other to a zero; up to 128 elements are added into
    eight running sums, one element in eight each, which are then added as
    [((r0+r1)+(r2+r3))+((r4+r5)+(r6+r7))], the elements left over after the
    last full group of eight being added one by one; a longer array is cut
    in two at a multiple of eight near its middle and the sums of the two
    parts are added.  (Zero has one sign here: the sign of a zero sum does
    not reach the integer that the script makes of the mean.) *)

Fixpoint map2 {A : Type} (f : A -> A -> A) (l1 l2 : list A) : list A :=
  match l1, l2 with
  | a :: l1', b :: l2' => f a b :: map2 f l1' l2'
  | _, _ => []
  end.

(** [for (i = 0; i < n; i++) res += a[i]]. *)
Definition sum_seq (res : f64) (l : list f64) : f64 := fold_left f64_add l res.

(** [for (i = 8; i < n - (n % 8); i += 8) r[j] += a[i + j]], as many groups
    of eight as [blocks]; returns the running sums and the elements not yet
    read. *)
Fixpoint add_blocks (blocks : nat) (r l : list f64) : list f64 * list f64 :=
  match blocks with
  | O => (r, l)
  | S b => add_blocks b (map2 f64_add r (firstn 8 l)) (skipn 8 l)
  end.

(** The branch for 8 to 128 elements; the eight running sums are the first
    eight elements to begin with. *)
Definition sum_unrolled (l : list f64) : f64 :=
  let (r, rest) := add_blocks (length l / 8 - 1) (firstn 8 l) (skipn 8 l) in
  match r with
  | [r0; r1; r2; r3; r4; r5; r6; r7] =>
      sum_seq (f64_add (f64_add (f64_add r0 r1) (f64_add r2 r3))
                       (f64_add (f64_add r4 r5) (f64_add r6 r7))) rest
  | _ => sum_seq (Finite 0) l
  end.

(** The whole loop; [fuel] bounds the depth of the halving, and the length
    of the array is enough of it ([pairwise_sum_fuel]). *)
Fixpoint pairwise_sum (fuel : nat) (l : list f64) : f64 :=
  if (length l <? 8)%nat then sum_seq (Finite 0) l
  else if (length l <=? 128)%nat then sum_unrolled l
  else match fuel with
       | O => sum_unrolled l
       | S fuel' =>
           let n2 := (length l / 2 - (length l / 2) mod 8)%nat in
           f64_add (pairwise_sum fuel' (firstn n2 l)) (pairwise_sum fuel' (skipn n2 l))
       end.

(** [np.add.reduce] proper: the result starts as zero and the loop above is
    run on one stretch of the array after the other, each sum being added to
    the result.  An array that needs no conversion is one stretch; one that
    is converted on the way is read through a buffer of [size] elements. *)
Fixpoint chunks (size fuel : nat) (a : list f64) : list (list f64) :=
  match fuel with
  | O => []
  | S fuel' =>
      match a with
      | [] => []
      | _ => firstn size a :: chunks size fuel' (skipn size a)
      end
  end.

Definition add_reduce (size : nat) (a : list f64) : f64 :=
  fold_left (fun res chunk => f64_add res (pairwise_sum (length chunk) chunk))
            (chunks size (length a) a) (Finite 0).

(** numpy's default buffer size, in elements. *)
Definition buffer_size : nat := 2 ^ 13.

(** An integer of the 64-bit signed range. *)
Record int64 : Type := mkInt64 {
  int64_val : Z;
  int64_range : in_int64 int64_val = true
}.

(** A number of the service's JSON: an int of the 64-bit range, or a
    float. *)
Inductive pynum : Type :=
  | PyInt (i : int64)
  | PyFloat (x : f64).

Definition is_int (x : pynum) : bool :=
  match x with
  | PyInt _ => true
  | PyFloat _ => false
  end.

(** The value of a rating that is a whole number: an int, or a float
    without a fractional part (a fraction of denominator 1). *)
Definition whole_rating (x : pynum) : option Z :=
  match x with
  | PyInt i => Some (int64_val i)
  | PyFloat (Finite q) => if (Qden q =? 1)%positive then Some (Qnum q) else None
  | PyFloat _ => None
  end.

(** The number as a double: an int is converted to the nearest one. *)
Definition to_f64 (x : pynum) : f64 :=
  match x with
  | PyInt i => round64 (inject_Z (int64_val i))
  | PyFloat y => y
  end.

(** [np.average(np.array(ratings))], that is the [mean] of the array: the
    float64 sum of the elements divided by their number.  A list of ints
    makes an int64 array, whose elements are converted to float64 through
    the buffer while they are added; a list with a float in it makes a
    float64 array, and so does the empty list. *)
Definition np_average (ratings : list pynum) : f64 :=
  let a := map to_f64 ratings in
  let size := if forallb is_int ratings then buffer_size else length a in
  f64_div_count (add_reduce size a) (length a).

(** One record of [reviews['reviews']], of which the script reads ['rating']
    only: by the interface of the review service every record carries a
    number under that key. *)
Record Review : Type := mkReview { rating : pynum }.

(** ** Python and numpy primitives *)

(** [l[i]] on a list. *)
Definition getitem {A : Type} (l : list A) (i : nat) : result A :=
  match nth_error l i with
  | Some x => Ok x
  | None => Raise IndexError
  end.

(** [[f(i) for i in range]]. *)
Fixpoint comprehension {A : Type} (f : nat -> result A) (range : list nat)
    : result (list A) :=
  match range with
  | [] => Ok []
  | i :: range' => x ← f i; xs ← comprehension f range'; Ok (x :: xs)
  end.

(** [for r in range: body], threading the variables the body updates. *)
Fixpoint for_each {S : Type} (body : S -> nat -> M S) (range : list nat) (s : S)
    : M S :=
  match range with
  | [] => mret s
  | r :: range' => s' ← body s r; for_each body range' s'
  end.

Fixpoint string_forallb (P : ascii -> bool) (s : string) : bool :=
  match s with
  | EmptyString => true
  | String c s' => P c && string_forallb P s'
  end.

(** A text of ASCII characters only. *)
Definition is_ascii (s : string) : bool :=
  string_forallb (fun c => (N_of_ascii c <? 128)%N) s.

(** A plain text: ASCII, and of at most 640 characters.  Interpreters since
    Python 3.11 refuse to convert between int and text beyond a number of
    digits that is 4300 unless configured, and that cannot be configured
    below 640. *)
Definition plain_text (s : string) : bool :=
  is_ascii s && (String.length s <=? 640)%nat.

(** [s.replace(c, empty)] for a one-character [c] and the empty text: every
    occurrence of [c] is dropped. *)
Fixpoint remove_char (c : ascii) (s : string) : string :=
  match s with
  | EmptyString => EmptyString
  | String a s' =>
      if Ascii.eqb a c then remove_char c s' else String a (remove_char c s')
  end.

(** [str(z)] for a Python int. *)
Definition str_of_int (z : Z) : string := NilZero.string_of_int (Z.to_int z).

(** [s * n]: [n] copies of [s], none when [n <= 0]. *)
Definition str_mul (s : string) (n : Z) : string :=
  Nat.iter (Z.to_nat n) (String.append s) EmptyString.

(** The blanks that [int()] strips from both ends of an ASCII text: tab,
    line feed, vertical tab, form feed, carriage return and space. *)
Definition is_space (c : ascii) : bool :=
  let n := N_of_ascii c in
  ((9 <=? n) && (n <=? 13) || (n =? 32))%N.

Definition digit_of (c : ascii) : option N :=
  let n := N_of_ascii c in
  if ((48 <=? n) && (n <=? 57))%N then Some (n - 48)%N else None.

Fixpoint lstrip (s : string) : string :=
  match s with
  | EmptyString => EmptyString
  | String c s' => if is_space c then lstrip s' else s
  end.

Fixpoint rstrip (s : string) : string :=
  match s with
  | EmptyString => EmptyString
  | String c s' =>
      match rstrip s' with
      | EmptyString => if is_space c then EmptyString else String c EmptyString
      | t => String c t
      end
  end.

(** Where the scanner of a decimal literal stands: nothing read yet, just
    after a digit, or just after an underscore. *)
Inductive lit_state : Type := LitStart | LitDigit | LitUnderscore.

(** The digits of an int literal: decimal digits, with single underscores
    allowed between two digits. *)
Fixpoint int_digits (s : string) (acc : N) (st : lit_state) : option N :=
  match s with
  | EmptyString =>
      match st with
      | LitDigit => Some acc
      | _ => None
      end
  | String c s' =>
      match digit_of c with
      | Some d => int_digits s' (10 * acc + d)%N LitDigit
      | None =>
          if Ascii.eqb c "_" then
            match st with
            | LitDigit => int_digits s' acc LitUnderscore
            | _ => None
            end
          else None
      end
  end.

(** [int(s)] on a plain text: optional blanks around, an optional sign,
    then the digits; anything else is a ValueError.  (The script applies it
    to the text of an identifier, see [id_arg]; on a text that is not plain
    [int()] also reads the digits and blanks of other scripts and refuses
    literals beyond the cap on digits.) *)
Definition py_int (s : string) : result Z :=
  let body :=
    match rstrip (lstrip s) with
    | EmptyString => None
    | String c t as ct =>
        if Ascii.eqb c "-" then
          option_map (fun n => - Z.of_N n) (int_digits t 0%N LitStart)
        else if Ascii.eqb c "+" then
          option_map Z.of_N (int_digits t 0%N LitStart)
        else option_map Z.of_N (int_digits ct 0%N LitStart)
    end in
  match body with
  | Some z => Ok z
  | None => Raise ValueError
  end.

(** ** The displayed table *)

(** A cell of the Location column after [replace]: a label where the value
    was 1.0 or 0.0, the untouched number otherwise. *)
Inductive loc_cell : Type :=
  | LocText (s : string)
  | LocNum (x : f64).

(** One row of the frame after the display block (lines 143 to 149): the
    identifier is an int, the price a text. *)
Record DisplayRow : Type := mkDisplayRow {
  d_Airbnb_Listing_ID : Z;
  d_Price : string;
  d_Latitude : f64;
  d_Longitude : f64;
  d_Dist_m_from_loc : f64;
  d_Location : loc_cell
}.

(** One row of the frame returned by [getLocationDisplayNameByDF], columns
    "Airbnb Listing ID", "Rating" and "Address". *)
Record EnrichedRecord : Type := mkEnrichedRecord {
  e_Airbnb_Listing_ID : Z;
  e_Rating : string;
  e_Address : string
}.

(** ** The outside world *)

(** Everything the script does not compute itself.  The two services answer
    a request in view of the requests made before it, with a value or an
    exception; the geocoder answers [None] when it finds nothing.
    The conversion of a double to int64 is the processor's: the C standard
    leaves open what it yields for a value that has no int64, so
    [invalid_cast] is what the platform yields for NaN and [overflow_cast]
    what it yields for an infinity or a finite value outside the 64-bit
    range (x86-64 yields -2^63 for all of them; other processors yield 0
    for NaN and the nearest end of the range otherwise).
    [round2_str] is the text that pandas' [Series.round(2).astype(str)] makes
    of one value, which the script shows and never reads again, and
    [checked] the state of the row's "Select" box in the editor, by row
    position. *)
Record World : Type := mkWorld {
  geolocator_reverse : list call -> f64 -> f64 -> result (option GeoLocation);
  api_get_reviews : list call -> Z -> Z -> Z -> result (list Review);
  invalid_cast : Z;
  overflow_cast : f64 -> Z;
  round2_str : f64 -> string;
  checked : list DisplayRow -> nat -> bool
}.

(** [geolocator.reverse(coords)] and [api.get_reviews(...)]: the request is
    recorded, whatever its outcome. *)
Definition reverse (w : World) (lat lon : f64) : M (option GeoLocation) :=
  fun h => (geolocator_reverse w h lat lon, h ++ [CallReverse lat lon]).

Definition get_reviews (w : World) (listing_id offset limit : Z) : M (list Review) :=
  fun h => (api_get_reviews w h listing_id offset limit,
            h ++ [CallGetReviews listing_id offset limit]).

(** [x.astype(int)] on a float64 value, a conversion to int64: the value
    rounded toward zero when that lies in the 64-bit range. *)
Definition cast_finite (w : World) (q : Q) : Z :=
  if in_int64 (Qtrunc q) then Qtrunc q else overflow_cast w (Finite q).

Definition astype_int (w : World) (x : f64) : Z :=
  match x with
  | Finite q => cast_finite w q
  | NaN => invalid_cast w
  | _ => overflow_cast w x
  end.

(** ** The rating adapter *)

(** The argument of [get_airbnb_rating], which the function reads through
    [str()] only: a Python int, or another object given by the text that
    [str()] returns for it (a str is its own text, and the float 123.456 has
    the text "123.456").  The objects covered are those whose text is plain,
    as the text of every float and of every 64-bit int is; an int identifier
    is taken to have fewer digits than the cap on conversions. *)
Inductive id_arg : Type :=
  | IdInt (z : Z)
  | IdText (s : string) (plain : plain_text s = true).

Definition py_str (a : id_arg) : string :=
  match a with
  | IdInt z => str_of_int z
  | IdText s _ => s
  end.

(** Lines 44 to 55.
<<
    listing_id = int(str(listing_id).replace('.', ''))
    api = airbnb.Api()
    reviews = api.get_reviews(listing_id=listing_id,offset=offset,limit=limit_results)
    ratings = [reviews['reviews'][r]['rating'] for r in range(len(reviews['reviews']))]
    avg_rating = np.average(np.array(ratings)).astype(int)
    return avg_rating
>> *)
Definition get_airbnb_rating (w : World) (listing_id : id_arg)
    (offset limit_results : Z) : M Z :=
  listing_id ← lift (py_int (remove_char "." (py_str listing_id)));
  reviews ← get_reviews w listing_id offset limit_results;
  ratings ← lift (comprehension (fun r => rev ← getitem reviews r; Ok (rating rev))
                                (seq 0 (length reviews)));
  mret (astype_int w (np_average ratings)).

(** The defaults of the signature, [offset=0] and [limit_results=20]. *)
Definition default_offset : Z := 0.
Definition default_limit_results : Z := 20.

(** ** The enrichment loop *)

Definition star : string := "⭐".

(** The body of the loop of lines 32 to 40, for the row at position [r];
    [addresses] is the list built so far.  The display name is read last,
    when the list for [append] is built, after both services were called. *)
Definition enrich_row (w : World) (selected_df : list DisplayRow)
    (addresses : list EnrichedRecord) (r : nat) : M (list EnrichedRecord) :=
  lat ← lift (getitem (map d_Latitude selected_df) r);
  lon ← lift (getitem (map d_Longitude selected_df) r);
  location ← reverse w lat lon;
  listing_id ← lift (getitem (map d_Airbnb_Listing_ID selected_df) r);
  rating ← get_airbnb_rating w (IdInt listing_id) default_offset default_limit_results;
  match location with
  | None => raise AttributeError
  | Some loc =>
      mret (addresses ++ [mkEnrichedRecord listing_id (str_mul star rating)
                                           (display_name loc)])
  end.

(** Lines 29 to 42.
<<
    addresses = []
    for r in np.arange(selected_df.shape[0]):
        coords = (selected_df['Latitude'].tolist()[r],selected_df['Longitude'].tolist()[r])
        geolocator = Nominatim(user_agent="PP_get_location")
        location = geolocator.reverse(coords)
        listing_id = selected_df['Airbnb Listing ID'].tolist()[r]
        rating = get_airbnb_rating(listing_id)
        addresses.append([listing_id,"⭐" * rating,location.raw["display_name"]])
    return pd.DataFrame(addresses, columns=["Airbnb Listing ID","Rating","Address"])
>> *)
Definition getLocationDisplayNameByDF (w : World) (selected_df : list DisplayRow)
    : M (list EnrichedRecord) :=
  for_each (enrich_row w selected_df) (seq 0 (length selected_df)) [].

(** The requests that a complete pass over a selection sends: for each row
    in turn, one to the geocoder and then one to the review service. *)
Definition calls_of_row (r : DisplayRow) : list call :=
  [CallReverse (d_Latitude r) (d_Longitude r);
   CallGetReviews (d_Airbnb_Listing_ID r) default_offset default_limit_results].

Definition calls_of (selection : list DisplayRow) : list call :=
  flat_map calls_of_row selection.

Arguments calls_of_row : simpl never.

(** ** The display block and the page *)

(** A value that [Series.astype(int)] accepts. *)
Definition is_finite (x : f64) : bool :=
  match x with
  | Finite _ => true
  | _ => false
  end.

(** Line 143, [Series.astype(int)]: pandas refuses a float64 column that
    holds a missing or infinite value, and converts the values of any other
    to int64. *)
Definition series_astype_int (w : World) (series : list f64) : result (list Z) :=
  if forallb is_finite series then Ok (map (astype_int w) series)
  else Raise IntCastingNaNError.

(** Lines 147 to 149, [replace({1.0: "To visit", 0.0: "Airbnb listing"})]. *)
Definition replace_location (x : f64) : loc_cell :=
  match x with
  | Finite q =>
      if Qeq_bool q 1 then LocText "To visit"
      else if Qeq_bool q 0 then LocText "Airbnb listing"
      else LocNum x
  | _ => LocNum x
  end.

Definition display_row (w : World) (id : Z) (r : Listing) : DisplayRow :=
  mkDisplayRow id (String.append "£ " (round2_str w (Price r)))
               (Latitude r) (Longitude r) (Dist_m_from_loc r)
               (replace_location (Location r)).

(** Lines 143 to 149: the three column assignments. *)
Definition display_block (w : World) (df : DataFrame) : result (list DisplayRow) :=
  ids ← series_astype_int w (map Airbnb_Listing_ID df);
  Ok (map (fun p => display_row w (fst p) (snd p)) (combine ids df)).

(** Lines 13 to 27: the rows whose "Select" box is ticked, without that
    column. *)
Definition dataframe_with_selections (w : World) (df : list DisplayRow)
    : list DisplayRow :=
  getitem_mask df (map (checked w df) (seq 0 (length df))).

(** [df.iloc[i]]. *)
Definition iloc {A : Type} (df : list A) (i : nat) : result A := getitem df i.

(** Line 168: the centre of the map, [dataframe.iloc[0][2]] and
    [dataframe.iloc[0][3]], the third and fourth columns of the first row. *)
Definition map_center (df : list DisplayRow) : result (f64 * f64) :=
  first_lat ← iloc df 0;
  first_lon ← iloc df 0;
  Ok (d_Latitude first_lat, d_Longitude first_lon).

(** What the "Data Analysis" tab ends up showing. *)
Record Page : Type := mkPage {
  table_shown : list DisplayRow;
  center : f64 * f64;
  selection_shown : option (list EnrichedRecord)
}.

(** Lines 131 to 179, the "Data Analysis" tab: filter, display block, row
    selection, map centre, then the enrichment of a non-empty selection.  An
    exception anywhere ends the run of the script. *)
Definition tab2_data_analysis (w : World) (dataframe : DataFrame)
    (max_budget max_distance : Z) : M Page :=
  let dataframe := filter_stage dataframe max_budget max_distance in
  dataframe ← lift (display_block w dataframe);
  let selection := dataframe_with_selections w dataframe in
  c ← lift (map_center dataframe);
  shown ← (if (length selection =? 0)%nat then mret None
           else addresses ← getLocationDisplayNameByDF w selection;
                mret (Some addresses));
  mret (mkPage dataframe c shown).

(** ** The frames as objects *)

(** A frame object on the heap: as loaded and filtered, or after the display
    block has overwritten three of its columns. *)
Inductive pyobj : Type :=
  | ObjFrame (rows : DataFrame)
  | ObjDisplayFrame (rows : list DisplayRow).

(** The heap of frame objects and the module-level name [dataframe]. *)
Record Store : Type := mkStore {
  heap : gmap positive pyobj;
  dataframe_ref : positive
}.

(** [dataframe = dataframe[mask]]: indexing by a mask builds a new frame
    object, and the name is bound to it; the indexed object is left alone. *)
Definition exec_filter (select : DataFrame -> DataFrame) (st : Store) : result Store :=
  match heap st !! dataframe_ref st with
  | Some (ObjFrame rows) =>
      let l := fresh (dom (heap st)) in
      Ok (mkStore (<[l := ObjFrame (select rows)]> (heap st)) l)
  | _ => Raise TypeError
  end.

(** [dataframe[col] = ...], three times: the object that the name is bound
    to is updated in place. *)
Definition exec_display_block (w : World) (st : Store) : result Store :=
  match heap st !! dataframe_ref st with
  | Some (ObjFrame rows) =>
      shown ← display_block w rows;
      Ok (mkStore (<[dataframe_ref st := ObjDisplayFrame shown]> (heap st))
                  (dataframe_ref st))
  | _ => Raise TypeError
  end.

(** Lines 138 and 140 as statements. *)
Definition exec_filter_stage (max_budget max_distance : Z) (st : Store) : result Store :=
  st1 ← exec_filter (fun df => filter_price df max_budget) st;
  exec_filter (fun df => filter_distance df max_distance) st1.

(** Lines 138 to 149 as statements. *)
Definition exec_filter_and_display (w : World) (max_budget max_distance : Z)
    (st : Store) : result Store :=
  st2 ← exec_filter_stage max_budget max_distance st;
  exec_display_block w st2.

(** ** Readings used in the statements *)

Definition is_digit (c : ascii) : bool :=
  match digit_of c with
  | Some _ => true
  | None => false
  end.


(** The number spelled by the digits of [s], other characters skipped. *)
Fixpoint digits_value (s : string) (acc : N) : N :=
  match s with
  | EmptyString => acc
  | String c s' =>
      match digit_of c with
      | Some d => digits_value s' (10 * acc + d)%N
      | None => digits_value s' acc
      end
  end.


(** The loop of [getLocationDisplayNameByDF] read row by row: what one turn
    does with its row, and the turns in sequence. *)
Definition enrich_one (w : World) (r : DisplayRow) : M EnrichedRecord :=
  location ← reverse w (d_Latitude r) (d_Longitude r);
  rating ← get_airbnb_rating w (IdInt (d_Airbnb_Listing_ID r))
                             default_offset default_limit_results;
  match location with
  | None => raise AttributeError
  | Some loc =>
      mret (mkEnrichedRecord (d_Airbnb_Listing_ID r) (str_mul star rating)
                             (display_name loc))
  end.

Fixpoint enrich_all (w : World) (rows : list DisplayRow) : M (list EnrichedRecord) :=
  match rows with
  | [] => mret []
  | r :: rows' => e ← enrich_one w r; es ← enrich_all w rows'; mret (e :: es)
  end.


(** The mean of a non-empty list of ratings, as an exact rational. *)
Definition exact_mean (ratings : list Z) : Q :=
  (inject_Z (fold_right Z.add 0%Z ratings) / inject_Z (Z.of_nat (length ratings)))%Q.

(** [z] is [q] rounded toward zero: [z] lies between 0 and [q], less than
    one unit away from [q]. *)
Definition truncates (q : Q) (z : Z) : Prop :=
  ((0 <= q -> inject_Z z <= q /\ q < inject_Z z + 1)
   /\ (q <= 0 -> inject_Z z - 1 < q /\ q <= inject_Z z))%Q.

(** ** Stand-ins for the services, and sample rows *)

Definition int64_min : Z := - 2 ^ 63.

(** Reviews with 4, 5 and 5 stars. *)
Definition three_reviews : list Review :=
  [mkReview (PyInt (mkInt64 4 eq_refl)); mkReview (PyInt (mkInt64 5 eq_refl));
   mkReview (PyInt (mkInt64 5 eq_refl))].

Definition digit_char (d : Z) : ascii := ascii_of_N (48 + Z.to_N d).

(** A price as pandas prints it after [round(2)]: the value times 100,
    rounded to a whole number and divided by 100 again, then the shortest
    text that reads back as that double.  For amounts below 10^13 that is
    the whole part, a point and one or two decimals. *)
Definition two_decimals (x : f64) : string :=
  match x with
  | NaN => "nan"
  | PosInf => "inf"
  | NegInf => "-inf"
  | Finite q =>
      let sign := if Qnum q <? 0 then "-" else EmptyString in
      match round64 ((if Qnum q <? 0 then - q else q) * 100) with
      | Finite p =>
          let m := round_half_even (Qnum p) (Z.pos (Qden p)) in
          let frac := m mod 100 in
          String.append sign
            (String.append (str_of_int (m / 100))
               (String "."
                  (String (digit_char (frac / 10))
                     (if frac mod 10 =? 0 then EmptyString
                      else String (digit_char (frac mod 10)) EmptyString))))
      | _ => String.append sign "inf"
      end
  end.

(** Both services answer, on an x86-64 machine. *)
Definition world_up : World :=
  mkWorld (fun _ _ _ => Ok (Some (mkGeoLocation "Dam 1, Amsterdam")))
          (fun _ _ _ _ => Ok three_reviews)
          int64_min (fun _ => int64_min) two_decimals (fun _ _ => true).

(** The review service knows no review of any listing. *)
Definition world_no_reviews : World :=
  mkWorld (geolocator_reverse world_up) (fun _ _ _ _ => Ok [])
          int64_min (overflow_cast world_up) (round2_str world_up) (checked world_up).

(** The review service cannot be reached for listing 1. *)
Definition world_reviews_down : World :=
  mkWorld (geolocator_reverse world_up)
          (fun _ id _ _ => if id =? 1 then Raise (ServiceError "unreachable")
                           else Ok three_reviews)
          int64_min (overflow_cast world_up) (round2_str world_up) (checked world_up).

(** The double below 1.0, which is what the JSON text 0.9999999999999999
    denotes, and a review set with that rating and the rating 1.0. *)
Definition below_one : Q := 9007199254740991 # 9007199254740992.

Definition fractional_reviews : list Review :=
  [mkReview (PyFloat (Finite below_one)); mkReview (PyFloat (Finite 1))].

Definition world_fractional_reviews : World :=
  mkWorld (geolocator_reverse world_up) (fun _ _ _ _ => Ok fractional_reviews)
          int64_min (overflow_cast world_up) (round2_str world_up) (checked world_up).

(** One review whose rating is the int 2^53 + 1. *)
Definition large_review : list Review :=
  [mkReview (PyInt (mkInt64 9007199254740993 eq_refl))].

Definition world_large_review : World :=
  mkWorld (geolocator_reverse world_up) (fun _ _ _ _ => Ok large_review)
          int64_min (overflow_cast world_up) (round2_str world_up) (checked world_up).

(** Two reviews with five stars. *)
Definition two_reviews : list Review :=
  [mkReview (PyInt (mkInt64 5 eq_refl)); mkReview (PyInt (mkInt64 5 eq_refl))].


Definition shown_row (id : Z) : DisplayRow :=
  mkDisplayRow id "£ 50.0" (Finite (52509669 # 1000000)) (Finite (13376294 # 1000000))
               (Finite 500) (LocText "Airbnb listing").

Definition two_rows : list DisplayRow := [shown_row 1; shown_row 2].

Definition store_of (T : DataFrame) : Store := mkStore {[ 1%positive := ObjFrame T ]} 1%positive.


(** The geocoder times out on the very first request and answers later
    ones. *)
Definition world_geocoder_flaky : World :=
  mkWorld (fun h _ _ => match h with
                        | [] => Raise (ServiceError "timed out")
                        | _ => Ok (Some (mkGeoLocation "Dam 1, Amsterdam"))
                        end)
          (api_get_reviews world_up)
          int64_min (overflow_cast world_up) (round2_str world_up) (checked world_up).

(** ** Further readings of the script *)

(** The int that line 143 writes for an identifier. *)
Definition id_int (w : World) (x : f64) : Z := astype_int w x.

(** Lines 13 to 27, statement by statement.  A row of the frame handed to
    the editor carries its "Select" box in front.
<<
    df_with_selections = df.copy()
    df_with_selections.insert(0, "Select", False)
    edited_df = st.data_editor(df_with_selections, hide_index=True,
                               column_config=..., disabled=df.columns)
    return edited_df[edited_df.Select].drop('Select', axis=1)
>>
    The editor gives the frame back with the boxes as the user left them;
    the other columns are disabled and no row can be added or deleted. *)
Definition insert_select (df : list DisplayRow) : list (bool * DisplayRow) :=
  map (fun r => (false, r)) df.

Definition data_editor (w : World) (df : list DisplayRow)
    (df_with_selections : list (bool * DisplayRow)) : list (bool * DisplayRow) :=
  map (fun ir => (checked w df (fst ir), snd (snd ir)))
      (combine (seq 0 (length df_with_selections)) df_with_selections).

Definition drop_select (edited_df : list (bool * DisplayRow)) : list DisplayRow :=
  map snd edited_df.

Definition dataframe_with_selections_steps (w : World) (df : list DisplayRow)
    : list DisplayRow :=
  let df_with_selections := insert_select df in
  let edited_df := data_editor w df df_with_selections in
  drop_select (getitem_mask edited_df (map fst edited_df)).

(** [sep.join(items)]. *)
Fixpoint str_join (sep : string) (items : list string) : string :=
  match items with
  | [] => EmptyString
  | [x] => x
  | x :: items' => String.append x (String.append sep (str_join sep items'))
  end.

Definition newline : ascii := ascii_of_nat 10.

(** Line 286, the markdown of the list of buildings: a dash and a blank, then
    the names joined by a line break, a dash and a blank. *)
Definition bullet_markdown (locations : list string) : string :=
  String.append "- " (str_join (String newline "- ") locations).

(** The lines of a text, cut at every line break. *)
Fixpoint lines (s : string) : list string :=
  match s with
  | EmptyString => [EmptyString]
  | String c s' =>
      if Ascii.eqb c newline then EmptyString :: lines s'
      else match lines s' with
           | l :: ls => String c l :: ls
           | [] => [String c EmptyString]
           end
  end.

(** A text without a line break. *)
Definition no_newline (s : string) : bool :=
  string_forallb (fun c => negb (Ascii.eqb c newline)) s.

(** The first names of the list of line 195, as a sample. *)
Definition some_locations : list string :=
  ["150 KV PLANT SCIENCE PARK"; "A&O Amsterdam Zuidoost"; "Amstel Botel"].



(** A request that concerns a row of the loaded table which passes both
    thresholds. *)
Definition request_about_kept_row (w : World) (T : DataFrame) (p d : Z) (c : call)
    : Prop :=
  exists r, In r T /\ keeps p d r
            /\ (c = CallReverse (Latitude r) (Longitude r)
                \/ c = CallGetReviews (id_int w (Airbnb_Listing_ID r))
                                      default_offset default_limit_results).

(** Nobody ticks a box. *)
Definition world_nothing_ticked : World :=
  mkWorld (geolocator_reverse world_up) (api_get_reviews world_up)
          int64_min (overflow_cast world_up) (round2_str world_up) (fun _ _ => false).

(** A table with a row whose identifier is missing. *)
Definition table_with_missing_id : DataFrame :=
  [row_of 1 50 500;
   mkListing NaN (Finite 60) (Finite (5237 # 100)) (Finite (489 # 100))
             (Finite 300) (Finite 0)].

(** ** Facts about double-precision arithmetic *)

(** *** Rounding to the nearest integer *)

Lemma round_half_even_bound (num den : Z) :
  0 < den -> 0 <= num ->
  - den <= 2 * (round_half_even num den * den - num) <= den
  /\ 0 <= round_half_even num den.
Proof.
  intros Hd Hn. unfold round_half_even.
  pose proof (Z.div_mod num den ltac:(lia)) as E.
  pose proof (Z.mod_pos_bound num den Hd) as Hr.
  pose proof (Z.div_pos num den Hn Hd) as Hq.
  destruct (Z.compare_spec (2 * (num mod den)) den) as [H|H|H];
    [destruct (Z.even (num / den))| |]; split; nia.
Qed.

Lemma round_half_even_exact (k den : Z) :
  0 < den -> round_half_even (k * den) den = k.
Proof.
  intros Hd. unfold round_half_even.
  rewrite Z.div_mul, Z.mod_mul by lia.
  change (2 * 0) with 0. destruct den; try lia. reflexivity.
Qed.

(** *** The exponent *)

Lemma pow2_pos (x : Z) : 0 < 2 ^ Z.max 0 x.
Proof. apply Z.pow_pos_nonneg; lia. Qed.

Lemma scale_shift (e e' : Z) :
  e <= e' ->
  2 ^ Z.max 0 (- e) * 2 ^ Z.max 0 e'
  = 2 ^ Z.max 0 (- e') * 2 ^ Z.max 0 e * 2 ^ (e' - e).
Proof.
  intros H. rewrite <- !Z.pow_add_r by lia. f_equal. lia.
Qed.

Lemma first_exponent (N D : Z) :
  0 < N -> 0 < D ->
  let e1 := Z.log2 N - Z.log2 D - 52 in
  2 ^ 51 * scale_den D e1 < scale_num N e1 < 2 ^ 53 * scale_den D e1.
Proof.
  intros HN HD e1. unfold scale_num, scale_den.
  destruct (Z.log2_spec N HN) as [HN1 HN2].
  destruct (Z.log2_spec D HD) as [HD1 HD2].
  pose proof (Z.log2_nonneg N). pose proof (Z.log2_nonneg D).
  rewrite Z.pow_succ_r in HN2, HD2 by lia.
  assert (2 ^ Z.log2 N * 2 ^ Z.max 0 (- e1)
          = 2 ^ Z.log2 D * 2 ^ 52 * 2 ^ Z.max 0 e1) as E.
  { rewrite <- !Z.pow_add_r by lia. f_equal. lia. }
  pose proof (pow2_pos (- e1)). pose proof (pow2_pos e1).
  set (p := 2 ^ Z.max 0 (- e1)) in *. set (r := 2 ^ Z.max 0 e1) in *.
  set (A := 2 ^ Z.log2 N) in *. set (B := 2 ^ Z.log2 D) in *.
  change (2 ^ 52) with 4503599627370496 in *.
  change (2 ^ 51) with 2251799813685248. change (2 ^ 53) with 9007199254740992.
  split.
  - assert (B * r * 2 > D * r) by nia. nia.
  - assert (N * p < 2 * A * p) by nia. assert (B * r <= D * r) by nia. nia.
Qed.

Lemma lower_exponent (N D e : Z) :
  0 < N -> 0 < D ->
  2 ^ 51 * scale_den D e < scale_num N e < 2 ^ 52 * scale_den D e ->
  2 ^ 52 * scale_den D (e - 1) < scale_num N (e - 1) < 2 ^ 53 * scale_den D (e - 1).
Proof.
  intros HN HD. unfold scale_num, scale_den.
  pose proof (scale_shift (e - 1) e ltac:(lia)) as E.
  replace (e - (e - 1)) with 1 in E by lia. change (2 ^ 1) with 2 in E.
  pose proof (pow2_pos (- e)). pose proof (pow2_pos e).
  pose proof (pow2_pos (- (e - 1))). pose proof (pow2_pos (e - 1)).
  set (p := 2 ^ Z.max 0 (- e)) in *. set (r := 2 ^ Z.max 0 e) in *.
  set (p' := 2 ^ Z.max 0 (- (e - 1))) in *. set (r' := 2 ^ Z.max 0 (e - 1)) in *.
  change (2 ^ 52) with 4503599627370496.
  change (2 ^ 51) with 2251799813685248. change (2 ^ 53) with 9007199254740992.
  intros [Hlo Hhi]. split.
  - apply (Z.mul_lt_mono_pos_r r); [lia|].
    replace (N * p' * r) with (2 * (N * p) * r') by nia.
    replace (4503599627370496 * (D * r') * r)
      with (2 * (2251799813685248 * (D * r)) * r') by nia.
    nia.
  - apply (Z.mul_lt_mono_pos_r r); [lia|].
    replace (N * p' * r) with (2 * (N * p) * r') by nia.
    replace (9007199254740992 * (D * r') * r)
      with (2 * (4503599627370496 * (D * r)) * r') by nia.
    nia.
Qed.

Lemma raise_exponent (N D e e' : Z) :
  0 < N -> 0 < D -> e <= e' ->
  scale_num N e < 2 ^ 53 * scale_den D e ->
  scale_num N e' < 2 ^ 53 * scale_den D e'.
Proof.
  intros HN HD Hle. unfold scale_num, scale_den.
  pose proof (scale_shift e e' Hle) as E.
  assert (1 <= 2 ^ (e' - e)) as Hg.
  { pose proof (Z.pow_pos_nonneg 2 (e' - e)). lia. }
  pose proof (pow2_pos (- e)). pose proof (pow2_pos e).
  pose proof (pow2_pos (- e')). pose proof (pow2_pos e').
  set (p := 2 ^ Z.max 0 (- e)) in *. set (r := 2 ^ Z.max 0 e) in *.
  set (p' := 2 ^ Z.max 0 (- e')) in *. set (r' := 2 ^ Z.max 0 e') in *.
  set (g := 2 ^ (e' - e)) in *.
  change (2 ^ 53) with 9007199254740992.
  intros Hlt.
  apply (Z.mul_lt_mono_pos_r r); [lia|].
  assert (N * p' * r <= N * p' * r * g) by nia.
  assert (N * p' * r * g = N * p * r') by nia.
  assert (N * p * r' < 9007199254740992 * (D * r) * r') by nia.
  nia.
Qed.

Lemma float_exponent_spec (N D : Z) :
  0 < N -> 0 < D ->
  let e := float_exponent N D in
  -1074 <= e
  /\ scale_num N e < 2 ^ 53 * scale_den D e
  /\ (-1074 < e -> 2 ^ 52 * scale_den D e <= scale_num N e).
Proof.
  intros HN HD. unfold float_exponent.
  set (e1 := Z.log2 N - Z.log2 D - 52).
  pose proof (first_exponent N D HN HD) as H1. fold e1 in H1. simpl in H1.
  assert (let e := if scale_num N e1 <? 2 ^ 52 * scale_den D e1 then e1 - 1 else e1 in
          2 ^ 52 * scale_den D e <= scale_num N e < 2 ^ 53 * scale_den D e) as H2.
  { destruct (Z.ltb_spec (scale_num N e1) (2 ^ 52 * scale_den D e1)) as [Hlt|Hge]; simpl.
    - pose proof (lower_exponent N D e1 HN HD ltac:(lia)). lia.
    - lia. }
  simpl in H2.
  set (e := if scale_num N e1 <? 2 ^ 52 * scale_den D e1 then e1 - 1 else e1) in *.
  cbv zeta.
  destruct (Z.max_spec e (-1074)) as [[Hlt ->]|[Hle ->]].
  - split; [lia|]. split; [|lia].
    apply (raise_exponent N D e (-1074) HN HD); lia.
  - split; [lia|]. split; [lia|]. intros _. lia.
Qed.

Lemma quot_cross (a b c d : Z) :
  0 < b -> 0 < d -> a * d = c * b -> Z.quot a b = Z.quot c d.
Proof.
  intros Hb Hd E.
  rewrite <- (Z.quot_mul_cancel_r a b d) by lia.
  rewrite E, (Z.mul_comm b d).
  apply Z.quot_mul_cancel_r; lia.
Qed.

Lemma Qtrunc_comp (q q' : Q) : (q == q')%Q -> Qtrunc q = Qtrunc q'.
Proof.
  unfold Qeq, Qtrunc. intros E. apply quot_cross; lia.
Qed.

Lemma Qtrunc_opp (q : Q) : Qtrunc (- q) = - Qtrunc q.
Proof. unfold Qtrunc. simpl. apply Z.quot_opp_l. lia. Qed.

Lemma small_exponent (N D : Z) :
  0 < N -> 0 < D -> N < 2 ^ 53 * D -> float_exponent N D <= 0.
Proof.
  intros HN HD Hlt.
  destruct (float_exponent_spec N D HN HD) as (H1 & H2 & H3).
  destruct (Z_le_gt_dec (float_exponent N D) 0) as [|Hgt]; [assumption|].
  specialize (H3 ltac:(lia)). unfold scale_num, scale_den in H3.
  replace (Z.max 0 (- float_exponent N D)) with 0 in H3 by lia.
  replace (Z.max 0 (float_exponent N D)) with (float_exponent N D) in H3 by lia.
  assert (2 <= 2 ^ float_exponent N D) as Hr.
  { change 2 with (2 ^ 1) at 1. apply Z.pow_le_mono_r; lia. }
  change (2 ^ 0) with 1 in H3. change (2 ^ 52) with 4503599627370496 in H3.
  change (2 ^ 53) with 9007199254740992 in Hlt. nia.
Qed.

(** A positive quotient [s / n] with [s] below 2^53 is rounded to a double
    with the same integer part. *)
Lemma round64_pos_trunc (s n : Z) :
  0 < s -> 0 < n -> s < 2 ^ 53 ->
  exists v, round64_pos s n = Some v /\ Qtrunc v = s / n /\ (0 <= v)%Q.
Proof.
  intros Hs Hn Hb. unfold round64_pos.
  destruct (float_exponent_spec s n Hs Hn) as (H1 & H2 & H3).
  pose proof (small_exponent s n Hs Hn ltac:(nia)) as He.
  set (e := float_exponent s n) in *.
  replace (971 <? e) with false by (symmetry; apply Z.ltb_ge; lia).
  replace (e =? 971) with false by (symmetry; apply Z.eqb_neq; lia).
  simpl orb. cbv iota.
  unfold scale_num, scale_den in *.
  replace (Z.max 0 e) with 0 in * by lia. change (2 ^ 0) with 1 in *.
  replace (Z.max 0 (- e)) with (- e) in * by lia.
  assert (0 < 2 ^ (- e)) as HP by (apply Z.pow_pos_nonneg; lia).
  assert (-1074 < e \/ 2 ^ (- e) = 2 ^ 1074) as Hcl.
  { destruct (Z.eq_dec e (-1074)) as [->|]; [right; reflexivity | left; lia]. }
  assert (2 ^ 52 < 2 ^ 1074) as Hbig by (apply Z.pow_lt_mono_r; lia).
  set (P := 2 ^ (- e)) in *. set (B := 2 ^ 1074) in *.
  rewrite !Z.mul_1_r in *.
  destruct (round_half_even_bound (s * P) n Hn ltac:(nia)) as [Hm Hm0].
  set (m := round_half_even (s * P) n) in *.
  pose proof (Z.div_mod s n ltac:(lia)) as Ediv.
  pose proof (Z.mod_pos_bound s n Hn) as Hf.
  pose proof (Z.div_pos s n ltac:(lia) Hn) as Hk.
  set (k := s / n) in *. set (f := s mod n) in *.
  change (2 ^ 52) with 4503599627370496 in *.
  change (2 ^ 53) with 9007199254740992 in *.
  assert (P * k <= m) as Hlo by nia.
  assert (m < P * (k + 1)) as Hhi.
  { destruct (Z.eq_dec f 0) as [Hf0|Hf0]; [nia|].
    destruct (Z_lt_le_dec n (2 * P)) as [Hsmall|Hlarge]; [nia|].
    destruct Hcl as [Hnorm|HPB]; [specialize (H3 Hnorm); nia|].
    assert (k = 0) by nia. subst k. nia. }
  eexists. split; [reflexivity|]. split.
  - rewrite (Qtrunc_comp _ (m # Z.to_pos P)) by apply Qred_correct.
    unfold Qtrunc. simpl. rewrite Z2Pos.id by lia.
    rewrite Z.quot_div_nonneg by lia.
    symmetry. apply (Z.div_unique m P k (m - P * k)); lia.
  - rewrite Qred_correct. unfold Qle. simpl. lia.
Qed.

Lemma Qred_inject_Z (k : Z) : Qred (inject_Z k) = inject_Z k.
Proof.
  unfold Qred, inject_Z.
  pose proof (Z.ggcd_gcd k 1) as Hg.
  pose proof (Z.ggcd_correct_divisors k 1) as Hd.
  destruct (Z.ggcd k 1) as [g [a b]]. simpl in Hg.
  rewrite Z.gcd_1_r in Hg. subst g. destruct Hd as [Ha Hb].
  rewrite Z.mul_1_l in Ha, Hb. subst a b. reflexivity.
Qed.

(** A positive whole number below 2^53 is a double. *)
Lemma round64_pos_whole (N D k : Z) :
  0 < D -> 0 < k < 2 ^ 53 -> N = k * D ->
  round64_pos N D = Some (inject_Z k).
Proof.
  intros HD Hk ->. unfold round64_pos.
  assert (0 < k * D) as HN by nia.
  destruct (float_exponent_spec (k * D) D HN HD) as (H1 & H2 & H3).
  pose proof (small_exponent (k * D) D HN HD ltac:(nia)) as He.
  set (e := float_exponent (k * D) D) in *.
  replace (971 <? e) with false by (symmetry; apply Z.ltb_ge; lia).
  replace (e =? 971) with false by (symmetry; apply Z.eqb_neq; lia).
  simpl orb. cbv iota.
  unfold scale_num, scale_den.
  replace (Z.max 0 e) with 0 by lia. change (2 ^ 0) with 1.
  replace (Z.max 0 (- e)) with (- e) by lia.
  assert (0 < 2 ^ (- e)) as HP by (apply Z.pow_pos_nonneg; lia).
  set (P := 2 ^ (- e)) in *.
  rewrite !Z.mul_1_r.
  replace (k * D * P) with (k * P * D) by lia.
  rewrite round_half_even_exact by lia.
  f_equal. rewrite <- (Qred_inject_Z k).
  apply Qred_complete. unfold Qeq, inject_Z. simpl.
  rewrite Z2Pos.id by lia. lia.
Qed.

Lemma round64_whole (q : Q) (k : Z) :
  Z.abs k < 2 ^ 53 -> (q == inject_Z k)%Q -> round64 q = whole k.
Proof.
  intros Hk E. unfold Qeq in E. simpl in E. rewrite Z.mul_1_r in E.
  unfold round64, whole. destruct (Qnum q) as [|N|N] eqn:EN.
  - assert (k = 0) by nia. subst k. reflexivity.
  - rewrite (round64_pos_whole (Z.pos N) (Z.pos (Qden q)) k); [reflexivity|lia|nia|lia].
  - rewrite (round64_pos_whole (Z.pos N) (Z.pos (Qden q)) (- k)); [|lia|nia|lia].
    unfold inject_Z, Qopp. simpl. rewrite Z.opp_involutive. reflexivity.
Qed.

Lemma f64_add_whole (a b : Z) :
  Z.abs (a + b) < 2 ^ 53 -> f64_add (whole a) (whole b) = whole (a + b).
Proof.
  intros H. simpl. apply round64_whole; [exact H|].
  unfold Qeq, inject_Z, Qplus. simpl. lia.
Qed.

Lemma zabs_nonneg (l : list Z) : 0 <= zabs l.
Proof. induction l; simpl; lia. Qed.

Lemma zsum_le_zabs (l : list Z) : Z.abs (zsum l) <= zabs l.
Proof. induction l; simpl; lia. Qed.

Lemma zsum_app (l1 l2 : list Z) : zsum (l1 ++ l2) = zsum l1 + zsum l2.
Proof. induction l1; simpl; lia. Qed.

Lemma zabs_app (l1 l2 : list Z) : zabs (l1 ++ l2) = zabs l1 + zabs l2.
Proof. induction l1; simpl; lia. Qed.

Lemma sum_seq_whole (zs : list Z) (acc : Z) :
  Z.abs acc + zabs zs < 2 ^ 53 ->
  sum_seq (whole acc) (map whole zs) = whole (acc + zsum zs).
Proof.
  revert acc. induction zs as [|z zs IH]; intros acc H; simpl in *.
  - rewrite Z.add_0_r. reflexivity.
  - unfold sum_seq in *. simpl.
    pose proof (zabs_nonneg zs).
    change (round64 (inject_Z acc + inject_Z z)) with (f64_add (whole acc) (whole z)).
    rewrite f64_add_whole by lia. rewrite IH by lia. f_equal. lia.
Qed.

Lemma map2_whole (rs zs : list Z) :
  length rs = length zs ->
  zabs rs + zabs zs < 2 ^ 53 ->
  map2 f64_add (map whole rs) (map whole zs) = map whole (map2 Z.add rs zs)
  /\ zsum (map2 Z.add rs zs) = zsum rs + zsum zs
  /\ zabs (map2 Z.add rs zs) <= zabs rs + zabs zs
  /\ length (map2 Z.add rs zs) = length rs.
Proof.
  revert zs. induction rs as [|r rs IH]; intros [|z zs]; simpl; try discriminate.
  - intros _ _. repeat split; lia.
  - intros [= Hl] Hb.
    pose proof (zabs_nonneg rs). pose proof (zabs_nonneg zs).
    destruct (IH zs Hl ltac:(lia)) as (E1 & E2 & E3 & E4).
    change (round64 (inject_Z r + inject_Z z)) with (f64_add (whole r) (whole z)).
    rewrite f64_add_whole by lia. rewrite E1.
    repeat split; simpl; lia || reflexivity.
Qed.

Lemma split_at (n : nat) (zs : list Z) :
  zsum zs = zsum (firstn n zs) + zsum (skipn n zs)
  /\ zabs zs = zabs (firstn n zs) + zabs (skipn n zs).
Proof.
  rewrite <- zsum_app, <- zabs_app, firstn_skipn. auto.
Qed.

Lemma add_blocks_whole (b : nat) (rs zs : list Z) :
  length rs = 8%nat -> (8 * b <= length zs)%nat ->
  zabs rs + zabs zs < 2 ^ 53 ->
  exists rs' zs',
    add_blocks b (map whole rs) (map whole zs) = (map whole rs', map whole zs')
    /\ length rs' = 8%nat
    /\ zsum rs' + zsum zs' = zsum rs + zsum zs
    /\ zabs rs' + zabs zs' <= zabs rs + zabs zs.
Proof.
  revert rs zs. induction b as [|b IH]; intros rs zs Hr Hl Hb; simpl add_blocks.
  - exists rs, zs. repeat split; lia.
  - destruct (split_at 8 zs) as [Es Ea].
    pose proof (zabs_nonneg (skipn 8 zs)).
    assert (length (firstn 8 zs) = 8%nat) as Hf by (rewrite length_firstn; lia).
    destruct (map2_whole rs (firstn 8 zs) ltac:(lia) ltac:(lia)) as (E1 & E2 & E3 & E4).
    rewrite firstn_map, E1, skipn_map.
    destruct (IH (map2 Z.add rs (firstn 8 zs)) (skipn 8 zs)) as (rs' & zs' & F1 & F2 & F3 & F4).
    + lia.
    + rewrite length_skipn. lia.
    + lia.
    + exists rs', zs'. repeat split; [exact F1 | lia ..].
Qed.

Lemma sum_unrolled_whole (zs : list Z) :
  (8 <= length zs)%nat -> zabs zs < 2 ^ 53 ->
  sum_unrolled (map whole zs) = whole (zsum zs).
Proof.
  intros Hl Hb. unfold sum_unrolled. rewrite length_map.
  destruct (split_at 8 zs) as [Es Ea].
  assert (length (firstn 8 zs) = 8%nat) as Hf by (rewrite length_firstn; lia).
  rewrite firstn_map, skipn_map.
  destruct (add_blocks_whole (length zs / 8 - 1) (firstn 8 zs) (skipn 8 zs))
    as (rs & rest & E & Hr & Hs & Ha).
  - exact Hf.
  - rewrite length_skipn.
    pose proof (Nat.div_mod_eq (length zs) 8). lia.
  - lia.
  - rewrite E.
    destruct rs as [|r0 [|r1 [|r2 [|r3 [|r4 [|r5 [|r6 [|r7 [|]]]]]]]]];
      try discriminate Hr.
    cbn [map]. cbn [zsum zabs fold_right] in Hs, Ha.
    pose proof (zabs_nonneg rest).
    rewrite !f64_add_whole by lia.
    rewrite sum_seq_whole by lia.
    f_equal. lia.
Qed.

Lemma pairwise_sum_step (fuel : nat) (l : list f64) :
  pairwise_sum (S fuel) l =
  if (length l <? 8)%nat then sum_seq (Finite 0) l
  else if (length l <=? 128)%nat then sum_unrolled l
  else f64_add (pairwise_sum fuel (firstn (length l / 2 - (length l / 2) mod 8) l))
               (pairwise_sum fuel (skipn (length l / 2 - (length l / 2) mod 8) l)).
Proof. reflexivity. Qed.

Lemma pairwise_sum_stop (l : list f64) :
  pairwise_sum 0 l =
  if (length l <? 8)%nat then sum_seq (Finite 0) l else sum_unrolled l.
Proof. simpl. destruct (length l <=? 128)%nat; reflexivity. Qed.

(** The length of the array is fuel enough: with that much or more, the
    branch for a spent fuel is not taken and the sum is the same. *)
Lemma pairwise_sum_fuel (f1 f2 : nat) (l : list f64) :
  (length l <= f1 + 128)%nat -> (length l <= f2 + 128)%nat ->
  pairwise_sum f1 l = pairwise_sum f2 l.
Proof.
  revert f2 l. induction f1 as [|f1 IH]; intros [|f2] l H1 H2.
  - reflexivity.
  - rewrite pairwise_sum_stop, pairwise_sum_step.
    destruct (length l <? 8)%nat; [reflexivity|].
    destruct (Nat.leb_spec (length l) 128); [reflexivity | lia].
  - rewrite pairwise_sum_stop, pairwise_sum_step.
    destruct (length l <? 8)%nat; [reflexivity|].
    destruct (Nat.leb_spec (length l) 128); [reflexivity | lia].
  - rewrite !pairwise_sum_step.
    destruct (length l <? 8)%nat; [reflexivity|].
    destruct (Nat.leb_spec (length l) 128) as [|Hlong]; [reflexivity|].
    set (n2 := (length l / 2 - (length l / 2) mod 8)%nat).
    assert (57 <= n2 < length l)%nat as Hn2.
    { unfold n2.
      pose proof (Nat.div_mod_eq (length l) 2).
      pose proof (Nat.mod_upper_bound (length l) 2 ltac:(lia)).
      pose proof (Nat.mod_upper_bound (length l / 2) 8 ltac:(lia)). lia. }
    f_equal; apply IH; rewrite ?length_firstn, ?length_skipn; lia.
Qed.

Lemma pairwise_sum_whole (fuel : nat) (zs : list Z) :
  zabs zs < 2 ^ 53 ->
  pairwise_sum fuel (map whole zs) = whole (zsum zs).
Proof.
  revert zs. induction fuel as [|fuel IH]; intros zs Hb.
  - rewrite pairwise_sum_stop, length_map.
    destruct (Nat.ltb_spec (length zs) 8).
    + change (Finite 0) with (whole 0). rewrite sum_seq_whole by (simpl; lia).
      reflexivity.
    + apply sum_unrolled_whole; assumption.
  - rewrite pairwise_sum_step, length_map.
    destruct (Nat.ltb_spec (length zs) 8).
    + change (Finite 0) with (whole 0). rewrite sum_seq_whole by (simpl; lia).
      reflexivity.
    + destruct (length zs <=? 128)%nat; [apply sum_unrolled_whole; assumption|].
      set (n2 := (length zs / 2 - (length zs / 2) mod 8)%nat).
      destruct (split_at n2 zs) as [Es Ea].
      pose proof (zabs_nonneg (firstn n2 zs)). pose proof (zabs_nonneg (skipn n2 zs)).
      pose proof (zsum_le_zabs (firstn n2 zs)). pose proof (zsum_le_zabs (skipn n2 zs)).
      rewrite firstn_map, skipn_map.
      rewrite (IH (firstn n2 zs)) by lia.
      rewrite (IH (skipn n2 zs)) by lia.
      rewrite f64_add_whole by lia. f_equal. lia.
Qed.


(** *** The mean of whole numbers *)

(** Rounding to a double does not change the whole part of a rational whose
    numerator is below 2^53. *)
Lemma round64_trunc (q : Q) :
  Z.abs (Qnum q) < 2 ^ 53 ->
  exists v, round64 q = Finite v /\ Qtrunc v = Qtrunc q.
Proof.
  destruct q as [[|N|N] D]; unfold round64; simpl Qnum; simpl Qden; intros Hb.
  - exists 0%Q. split; [reflexivity|]. unfold Qtrunc. simpl. reflexivity.
  - destruct (round64_pos_trunc (Z.pos N) (Z.pos D)) as (v & -> & Hv & _); try lia.
    exists v. split; [reflexivity|]. rewrite Hv. unfold Qtrunc. simpl Qnum. simpl Qden.
    symmetry. apply Z.quot_div_nonneg; lia.
  - destruct (round64_pos_trunc (Z.pos N) (Z.pos D)) as (v & -> & Hv & _); try lia.
    exists (- v)%Q. split; [reflexivity|]. rewrite Qtrunc_opp, Hv.
    unfold Qtrunc. simpl Qnum. simpl Qden.
    change (Z.neg N) with (- Z.pos N). rewrite Z.quot_opp_l by lia.
    f_equal. symmetry. apply Z.quot_div_nonneg; lia.
Qed.

Lemma zabs_firstn (n : nat) (zs : list Z) : zabs (firstn n zs) <= zabs zs.
Proof.
  rewrite <- (firstn_skipn n zs) at 2. rewrite zabs_app.
  pose proof (zabs_nonneg (skipn n zs)). lia.
Qed.

Lemma zabs_skipn (n : nat) (zs : list Z) : zabs (skipn n zs) <= zabs zs.
Proof.
  rewrite <- (firstn_skipn n zs) at 2. rewrite zabs_app.
  pose proof (zabs_nonneg (firstn n zs)). lia.
Qed.

(** The buffered sum of whole numbers is exact as long as the absolute
    values add up to less than 2^53. *)
Lemma chunks_whole (size fuel : nat) (zs : list Z) (acc : Z) :
  (0 < size)%nat -> (length zs <= fuel)%nat ->
  Z.abs acc + zabs zs < 2 ^ 53 ->
  fold_left (fun res chunk => f64_add res (pairwise_sum (length chunk) chunk))
            (chunks size fuel (map whole zs)) (whole acc)
  = whole (acc + zsum zs).
Proof.
  intros Hsize. revert zs acc.
  induction fuel as [|fuel IH]; intros zs acc Hlen Hb.
  - destruct zs; [|simpl in Hlen; lia]. simpl. rewrite Z.add_0_r. reflexivity.
  - destruct zs as [|z zs'] eqn:Ez.
    + simpl. rewrite Z.add_0_r. reflexivity.
    + rewrite <- Ez in *. assert (zs <> []) as Hne by (rewrite Ez; discriminate).
      assert (chunks size (S fuel) (map whole zs)
              = firstn size (map whole zs)
                :: chunks size fuel (skipn size (map whole zs))) as ->.
      { rewrite Ez. reflexivity. }
      cbn [fold_left].
      rewrite firstn_map, skipn_map, length_map.
      pose proof (zabs_firstn size zs) as Hf.
      pose proof (zabs_skipn size zs) as Hs.
      pose proof (zabs_nonneg (firstn size zs)) as Hf0.
      pose proof (zabs_nonneg (skipn size zs)) as Hs0.
      pose proof (zsum_le_zabs (firstn size zs)) as Hzf.
      assert (zabs zs = zabs (firstn size zs) + zabs (skipn size zs)) as Habs.
      { rewrite <- (firstn_skipn size zs) at 1. apply zabs_app. }
      assert (zsum zs = zsum (firstn size zs) + zsum (skipn size zs)) as Hsum.
      { rewrite <- (firstn_skipn size zs) at 1. apply zsum_app. }
      rewrite pairwise_sum_whole by lia.
      rewrite f64_add_whole by lia.
      rewrite IH.
      * f_equal. lia.
      * rewrite length_skipn. rewrite Ez in *. simpl in Hlen |- *. lia.
      * lia.
Qed.

Lemma add_reduce_whole (size : nat) (zs : list Z) :
  (0 < size)%nat -> zabs zs < 2 ^ 53 ->
  add_reduce size (map whole zs) = whole (zsum zs).
Proof.
  intros Hsize Hb. unfold add_reduce. rewrite length_map.
  change (Finite 0) with (whole 0).
  rewrite chunks_whole; [reflexivity | exact Hsize | lia | simpl; lia].
Qed.

Lemma to_f64_whole (ratings : list pynum) (zs : list Z) :
  map whole_rating ratings = map Some zs -> zabs zs < 2 ^ 53 ->
  map to_f64 ratings = map whole zs.
Proof.
  revert zs. induction ratings as [|x l IH]; intros [|z zs]; simpl;
    try discriminate; [auto|].
  intros E Hb. injection E as Ex El.
  pose proof (zabs_nonneg zs) as H0.
  rewrite (IH zs El ltac:(lia)). f_equal.
  destruct x as [i|[| |[a b]|]]; try discriminate; simpl in Ex.
  - injection Ex as <-. simpl. apply round64_whole; [lia | reflexivity].
  - destruct b; simpl in Ex; try discriminate Ex.
    injection Ex as <-. reflexivity.
Qed.

Lemma buffer_size_pos : (0 < buffer_size)%nat.
Proof. apply Nat.neq_0_lt_0, Nat.pow_nonzero. discriminate. Qed.

Lemma quot_abs_le (s n : Z) : 0 < n -> Z.abs (Z.quot s n) <= Z.abs s.
Proof.
  intros Hn. rewrite <- Z.quot_abs by lia. rewrite (Z.abs_eq n) by lia.
  apply Z.quot_le_upper_bound; [lia|]. pose proof (Z.abs_nonneg s). nia.
Qed.

(** The float64 mean of whole ratings whose absolute values add up to less
    than 2^53 has the whole part of the exact mean, and the cast yields it. *)
Lemma np_average_ints (ratings : list pynum) (zs : list Z) :
  ratings <> [] ->
  map whole_rating ratings = map Some zs -> zabs zs < 2 ^ 53 ->
  exists v, np_average ratings = Finite v
            /\ Qtrunc v = Z.quot (zsum zs) (Z.of_nat (length zs)).
Proof.
  intros Hne E Hb. unfold np_average. cbv zeta.
  rewrite (to_f64_whole ratings zs E Hb).
  assert (length zs <> 0%nat) as Hlen.
  { intros H0. apply Hne. apply (f_equal (@length _)) in E.
    rewrite !length_map, H0 in E. destruct ratings; [reflexivity | discriminate]. }
  rewrite add_reduce_whole;
    [| destruct (forallb is_int ratings);
       [apply buffer_size_pos | rewrite length_map; lia] | exact Hb].
  rewrite length_map.
  destruct (length zs) as [|n] eqn:En; [congruence|].
  unfold whole. cbn [f64_div_count].
  pose proof (zsum_le_zabs zs) as Hs.
  destruct (round64_trunc (inject_Z (zsum zs) / inject_Z (Z.of_nat (S n)))) as (v & Hv & Ht).
  { rewrite Nat2Z.inj_succ, <- Zpos_P_of_succ_nat.
    unfold Qdiv, Qinv, Qmult, inject_Z. simpl Qnum. lia. }
  exists v. split; [exact Hv|]. rewrite Ht.
  rewrite Nat2Z.inj_succ, <- Zpos_P_of_succ_nat.
  unfold Qtrunc, Qdiv, Qinv, Qmult, inject_Z. simpl Qnum. simpl Qden.
  rewrite Z.mul_1_r. reflexivity.
Qed.

Lemma astype_int_ints (w : World) (ratings : list pynum) (zs : list Z) :
  ratings <> [] ->
  map whole_rating ratings = map Some zs -> zabs zs < 2 ^ 53 ->
  astype_int w (np_average ratings) = Z.quot (zsum zs) (Z.of_nat (length zs)).
Proof.
  intros Hne E Hb.
  destruct (np_average_ints ratings zs Hne E Hb) as (v & -> & Hv).
  unfold astype_int, cast_finite. rewrite Hv.
  assert (0 < Z.of_nat (length zs)) as Hn.
  { apply (f_equal (@length _)) in E. rewrite !length_map in E.
    destruct ratings; [congruence|]. simpl in E. lia. }
  pose proof (quot_abs_le (zsum zs) _ Hn) as Hq.
  pose proof (zsum_le_zabs zs) as Hs.
  assert (in_int64 (Z.quot (zsum zs) (Z.of_nat (length zs))) = true) as ->;
    [|reflexivity].
  unfold in_int64. apply andb_true_iff. split; apply Z.leb_le.
  - assert (2 ^ 53 < 2 ^ 63) by (vm_compute; reflexivity). lia.
  - assert (2 ^ 53 < 2 ^ 63 - 1) by (vm_compute; reflexivity). lia.
Qed.

(** ** Facts about the filter stage *)

Lemma f64_le_int_spec (x : f64) (k : Z) : f64_le_int x k = true <-> f64_le x k.
Proof.
  destruct x; simpl; try (split; [discriminate | tauto]); try tauto.
  apply Qle_bool_iff.
Qed.

Lemma keepb_spec (p d : Z) (r : Listing) : keepb p d r = true <-> keeps p d r.
Proof.
  unfold keepb, keeps. rewrite andb_true_iff, !f64_le_int_spec. tauto.
Qed.

(** Indexing with a mask computed row by row is a filter. *)
Lemma getitem_mask_map {A : Type} (f : A -> bool) (df : list A) :
  getitem_mask df (map f df) = List.filter f df.
Proof.
  induction df as [|r df IH]; simpl; [reflexivity|].
  destruct (f r); rewrite IH; reflexivity.
Qed.

Lemma filter_price_eq (df : DataFrame) (p : Z) :
  filter_price df p = List.filter (fun r => f64_le_int (Price r) p) df.
Proof.
  unfold filter_price, series_le. rewrite map_map. apply getitem_mask_map.
Qed.

Lemma filter_distance_eq (df : DataFrame) (d : Z) :
  filter_distance df d = List.filter (fun r => f64_le_int (Dist_m_from_loc r) d) df.
Proof.
  unfold filter_distance, series_le. rewrite map_map. apply getitem_mask_map.
Qed.

Lemma filter_filter_andb {A : Type} (f g : A -> bool) (l : list A) :
  List.filter g (List.filter f l) = List.filter (fun x => f x && g x) l.
Proof.
  induction l as [|x l IH]; simpl; [reflexivity|].
  destruct (f x); simpl; [destruct (g x)|]; rewrite IH; reflexivity.
Qed.

Lemma filter_stage_eq (df : DataFrame) (p d : Z) :
  filter_stage df p d = List.filter (keepb p d) df.
Proof.
  unfold filter_stage. rewrite filter_distance_eq, filter_price_eq.
  apply filter_filter_andb.
Qed.

Lemma filter_sublist {A : Type} (f : A -> bool) (l : list A) :
  sublist (List.filter f l) l.
Proof.
  induction l as [|x l IH]; simpl; [constructor|].
  destruct (f x); constructor; exact IH.
Qed.

Lemma filter_fixed {A : Type} (f : A -> bool) (l : list A) :
  List.filter f (List.filter f l) = List.filter f l.
Proof.
  induction l as [|x l IH]; simpl; [reflexivity|].
  destruct (f x) eqn:E; simpl; rewrite ?E, IH; reflexivity.
Qed.

(** C1: for every table and thresholds the filter keeps exactly the rows
    with [Price <= max_budget] and [Dist <= max_distance] (inclusive), each as
    often as it occurs, and the result is an order-preserving sub-sequence of
    the table; on the scenario table only the row with id 1 remains, and a
    row that sits exactly on both thresholds is kept. *)
Theorem filter_stage_exact (T : DataFrame) (p d : Z) :
  filter_stage T p d = List.filter (keepb p d) T
  /\ (forall r, In r (filter_stage T p d) <-> In r T /\ keeps p d r)
  /\ sublist (filter_stage T p d) T
  /\ filter_stage scenario_table 100 1000 = [row_of 1 50 500]
  /\ filter_stage [row_of 7 100 1000] 100 1000 = [row_of 7 100 1000].
Proof.
  rewrite filter_stage_eq.
  split; [reflexivity|]. split; [|split; [apply filter_sublist|]].
  - intros r. rewrite filter_In, keepb_spec. tauto.
  - split; vm_compute; reflexivity.
Qed.

(** C8: filtering twice with the same thresholds is filtering once. *)
Theorem filter_stage_idempotent (T : DataFrame) (p d : Z) :
  filter_stage (filter_stage T p d) p d = filter_stage T p d.
Proof.
  rewrite !filter_stage_eq. apply filter_fixed.
Qed.

(** ** Texts and integer literals *)

Lemma digit_not_special (c : ascii) (d : N) :
  digit_of c = Some d ->
  is_space c = false /\ Ascii.eqb c "-" = false /\ Ascii.eqb c "+" = false
  /\ Ascii.eqb c "." = false /\ Ascii.eqb c "_" = false.
Proof.
  destruct c as [[] [] [] [] [] [] [] []]; vm_compute; intros H;
    try discriminate H; repeat split.
Qed.

Lemma lstrip_id (s : string) :
  string_forallb (fun c => negb (is_space c)) s = true -> lstrip s = s.
Proof.
  destruct s as [|c s]; simpl; [reflexivity|].
  intros H. apply andb_true_iff in H as [H _].
  destruct (is_space c); [discriminate | reflexivity].
Qed.

Lemma rstrip_id (s : string) :
  string_forallb (fun c => negb (is_space c)) s = true -> rstrip s = s.
Proof.
  induction s as [|c s IH]; simpl; [reflexivity|].
  intros H. apply andb_true_iff in H as [Hc Hs].
  rewrite (IH Hs). destruct s; [|reflexivity].
  destruct (is_space c); [discriminate | reflexivity].
Qed.

Lemma string_forallb_impl (P Q : ascii -> bool) (s : string) :
  (forall c, P c = true -> Q c = true) ->
  string_forallb P s = true -> string_forallb Q s = true.
Proof.
  intros HPQ. induction s as [|c s IH]; simpl; [reflexivity|].
  intros H. apply andb_true_iff in H as [Hc Hs].
  rewrite (HPQ c Hc), (IH Hs). reflexivity.
Qed.

Lemma is_digit_not_space (c : ascii) : is_digit c = true -> negb (is_space c) = true.
Proof.
  unfold is_digit. destruct (digit_of c) as [d|] eqn:E; [|discriminate].
  intros _. destruct (digit_not_special c d E) as (-> & _). reflexivity.
Qed.


(** On a text of digits the scanner computes the number the digits spell. *)
Lemma int_digits_all_digits (s : string) (acc : N) :
  string_forallb is_digit s = true ->
  int_digits s acc LitDigit = Some (digits_value s acc).
Proof.
  revert acc. induction s as [|c s IH]; intros acc; simpl; [reflexivity|].
  intros H. apply andb_true_iff in H as [Hc Hs].
  unfold is_digit in Hc. destruct (digit_of c); [|discriminate]. apply IH, Hs.
Qed.

Lemma int_digits_start (s : string) :
  string_forallb is_digit s = true -> s <> EmptyString ->
  int_digits s 0%N LitStart = Some (digits_value s 0%N).
Proof.
  destruct s as [|c s]; [congruence|]. simpl. intros H _.
  apply andb_true_iff in H as [Hc Hs].
  unfold is_digit in Hc. destruct (digit_of c); [|discriminate].
  apply int_digits_all_digits, Hs.
Qed.

Lemma py_int_all_digits (s : string) :
  string_forallb is_digit s = true -> s <> EmptyString ->
  py_int s = Ok (Z.of_N (digits_value s 0%N)).
Proof.
  intros H Hne. unfold py_int.
  pose proof (string_forallb_impl _ _ s is_digit_not_space H) as Hsp.
  rewrite (lstrip_id s Hsp), (rstrip_id s Hsp).
  destruct s as [|c s]; [congruence|].
  pose proof H as H'. simpl in H'. apply andb_true_iff in H' as [Hc _].
  unfold is_digit in Hc. destruct (digit_of c) as [d|] eqn:E; [|discriminate].
  destruct (digit_not_special c d E) as (_ & -> & -> & _).
  rewrite (int_digits_start _ H Hne). reflexivity.
Qed.

(** The digits that [str()] writes for a number. *)
Lemma string_of_uint_digits (u : Decimal.uint) :
  string_forallb is_digit (NilEmpty.string_of_uint u) = true.
Proof. induction u; simpl; auto. Qed.

Lemma digits_value_cons (c : ascii) (d : N) (s : string) (acc : N) :
  digit_of c = Some d ->
  digits_value (String c s) acc = digits_value s (10 * acc + d)%N.
Proof. intros H. simpl. rewrite H. reflexivity. Qed.

Lemma digits_value_uint (u : Decimal.uint) (acc : N) :
  digits_value (NilEmpty.string_of_uint u) acc
  = (DecimalPos.Unsigned.of_lu (Decimal.rev u)
     + acc * 10 ^ DecimalPos.Unsigned.usize u)%N.
Proof.
  revert acc.
  induction u; intros acc; simpl NilEmpty.string_of_uint.
  1: simpl; lia.
  all: erewrite digits_value_cons by (vm_compute; reflexivity).
  all: rewrite IHu; unfold Decimal.rev at 2; simpl Decimal.revapp.
  all: rewrite (DecimalPos.Unsigned.of_lu_revapp u).
  all: simpl DecimalPos.Unsigned.of_lu; simpl DecimalPos.Unsigned.usize.
  all: rewrite N.pow_succ_r'; lia.
Qed.

Lemma digits_value_to_uint (p : positive) :
  digits_value (NilEmpty.string_of_uint (Pos.to_uint p)) 0%N = N.pos p.
Proof.
  rewrite digits_value_uint, N.mul_0_l, N.add_0_r.
  rewrite <- DecimalPos.Unsigned.of_uint_alt. apply DecimalPos.Unsigned.of_to.
Qed.

Lemma string_of_to_uint_nonempty (p : positive) :
  NilEmpty.string_of_uint (Pos.to_uint p) <> EmptyString.
Proof.
  pose proof (DecimalPos.Unsigned.to_uint_nonnil p) as H.
  destruct (Pos.to_uint p); [congruence | discriminate ..].
Qed.

Lemma remove_char_none (c : ascii) (s : string) :
  string_forallb (fun a => negb (Ascii.eqb a c)) s = true -> remove_char c s = s.
Proof.
  induction s as [|a s IH]; simpl; [reflexivity|].
  intros H. apply andb_true_iff in H as [Ha Hs].
  destruct (Ascii.eqb a c); [discriminate|]. rewrite (IH Hs). reflexivity.
Qed.

Lemma is_digit_not_dot (c : ascii) : is_digit c = true -> negb (Ascii.eqb c ".") = true.
Proof.
  unfold is_digit. destruct (digit_of c) as [d|] eqn:E; [|discriminate].
  intros _. destruct (digit_not_special c d E) as (_ & _ & _ & -> & _). reflexivity.
Qed.

(** [int(str(z).replace(".", ...))] gives back the int [z]. *)
Lemma py_int_str_of_int (z : Z) :
  py_int (remove_char "." (str_of_int z)) = Ok z.
Proof.
  unfold str_of_int. destruct z as [|p|p]; [reflexivity | |].
  - simpl Z.to_int. unfold NilZero.string_of_int, NilZero.string_of_uint.
    pose proof (string_of_to_uint_nonempty p) as Hne.
    pose proof (string_of_uint_digits (Pos.to_uint p)) as Hd.
    assert (NilEmpty.string_of_uint (Pos.to_uint p)
            = match Pos.to_uint p with
              | Decimal.Nil => "0"
              | _ => NilEmpty.string_of_uint (Pos.to_uint p)
              end) as <-.
    { pose proof (DecimalPos.Unsigned.to_uint_nonnil p).
      destruct (Pos.to_uint p); congruence. }
    rewrite remove_char_none
      by (eapply string_forallb_impl; [apply is_digit_not_dot | exact Hd]).
    rewrite (py_int_all_digits _ Hd Hne), digits_value_to_uint. reflexivity.
  - simpl Z.to_int. unfold NilZero.string_of_int, NilZero.string_of_uint.
    pose proof (string_of_to_uint_nonempty p) as Hne.
    pose proof (string_of_uint_digits (Pos.to_uint p)) as Hd.
    assert (NilEmpty.string_of_uint (Pos.to_uint p)
            = match Pos.to_uint p with
              | Decimal.Nil => "0"
              | _ => NilEmpty.string_of_uint (Pos.to_uint p)
              end) as <-.
    { pose proof (DecimalPos.Unsigned.to_uint_nonnil p).
      destruct (Pos.to_uint p); congruence. }
    simpl remove_char.
    rewrite remove_char_none
      by (eapply string_forallb_impl; [apply is_digit_not_dot | exact Hd]).
    pose proof (string_forallb_impl _ _ _ is_digit_not_space Hd) as Hsp.
    unfold py_int. simpl lstrip.
    assert (rstrip (String "-" (NilEmpty.string_of_uint (Pos.to_uint p)))
            = String "-" (NilEmpty.string_of_uint (Pos.to_uint p))) as ->.
    { apply rstrip_id. simpl. exact Hsp. }
    simpl Ascii.eqb. cbv iota.
    rewrite (int_digits_start _ Hd Hne), digits_value_to_uint. reflexivity.
Qed.

(** ** Index loops *)

Lemma getitem_middle {A : Type} (pre : list A) (x : A) (post : list A) :
  getitem (pre ++ x :: post) (length pre) = Ok x.
Proof.
  unfold getitem. rewrite nth_error_app2, Nat.sub_diag by lia. reflexivity.
Qed.

Lemma getitem_map_middle {A B : Type} (f : A -> B) (pre : list A) (x : A) (post : list A) :
  getitem (map f (pre ++ x :: post)) (length pre) = Ok (f x).
Proof.
  rewrite map_app. simpl map.
  rewrite <- (length_map f pre). apply getitem_middle.
Qed.

(** A comprehension that indexes a list over its own range maps over it. *)
Lemma comprehension_getitem {A B : Type} (g : A -> B) (l pre : list A) :
  comprehension (fun i => x ← getitem (pre ++ l) i; Ok (g x))
                (seq (length pre) (length l))
  = Ok (map g l).
Proof.
  revert pre. induction l as [|a l IH]; intros pre; simpl; [reflexivity|].
  rewrite getitem_middle. simpl.
  specialize (IH (pre ++ [a])).
  rewrite <- app_assoc, length_app, Nat.add_1_r in IH. simpl in IH.
  rewrite IH. reflexivity.
Qed.

Lemma comprehension_length {A : Type} (f : nat -> result A) (range : list nat) (xs : list A) :
  comprehension f range = Ok xs -> length xs = length range.
Proof.
  revert xs. induction range as [|i range IH]; intros xs; simpl.
  - intros [= <-]. reflexivity.
  - destruct (f i) as [x|e]; simpl; [|discriminate].
    destruct (comprehension f range) as [ys|e]; simpl; [|discriminate].
    intros [= <-]. simpl. rewrite (IH ys eq_refl). reflexivity.
Qed.

(** ** The rating adapter, step by step *)


Lemma get_airbnb_rating_eq (w : World) (id : id_arg) (off lim : Z) (h : list call) :
  get_airbnb_rating w id off lim h =
  match py_int (remove_char "." (py_str id)) with
  | Raise e => (Raise e, h)
  | Ok n =>
      match api_get_reviews w h n off lim with
      | Raise e => (Raise e, h ++ [CallGetReviews n off lim])
      | Ok reviews =>
          (Ok (astype_int w (np_average (map rating reviews))),
           h ++ [CallGetReviews n off lim])
      end
  end.
Proof.
  unfold get_airbnb_rating, mbind, M_bind, lift, get_reviews, mret, M_ret.
  destruct (py_int _) as [n|e]; [|reflexivity].
  destruct (api_get_reviews w h n off lim) as [reviews|e]; [|reflexivity].
  pose proof (comprehension_getitem rating reviews []) as E.
  unfold mbind in E. simpl in E. simpl. rewrite E. reflexivity.
Qed.

(** ** Rounding toward zero *)

Lemma Qtrunc_truncates (s : Z) (p : positive) : truncates (s # p) (Qtrunc (s # p)).
Proof.
  unfold truncates, Qtrunc, Qle, Qlt, Qplus, Qminus, Qopp; simpl.
  pose proof (Z.quot_rem' s (Z.pos p)) as E.
  split; intros Hs.
  - pose proof (Z.rem_bound_pos s (Z.pos p) ltac:(lia) ltac:(lia)). nia.
  - pose proof (Z.rem_bound_pos_neg s (Z.pos p) ltac:(lia) ltac:(lia)). nia.
Qed.

Lemma truncates_Qeq (q q' : Q) (z : Z) : (q == q')%Q -> truncates q z -> truncates q' z.
Proof.
  unfold truncates. intros E [H1 H2]. rewrite <- E. auto.
Qed.

Lemma exact_mean_Qmake (ratings : list Z) :
  ratings <> [] ->
  (fold_right Z.add 0%Z ratings # Pos.of_nat (length ratings) == exact_mean ratings)%Q.
Proof.
  intros Hne. unfold exact_mean. rewrite Qmake_Qdiv.
  replace (Z.pos (Pos.of_nat (length ratings))) with (Z.of_nat (length ratings));
    [reflexivity|].
  destruct ratings as [|a l]; [congruence|]. simpl length. lia.
Qed.

(** The quotient of the sum by the count is the exact mean rounded toward
    zero. *)
Lemma quot_truncates_mean (zs : list Z) :
  zs <> [] -> truncates (exact_mean zs) (Z.quot (zsum zs) (Z.of_nat (length zs))).
Proof.
  intros Hne. eapply truncates_Qeq; [apply exact_mean_Qmake, Hne|].
  pose proof (Qtrunc_truncates (zsum zs) (Pos.of_nat (length zs))) as H.
  unfold Qtrunc in H. simpl Qnum in H. simpl Qden in H.
  replace (Z.pos (Pos.of_nat (length zs))) with (Z.of_nat (length zs)) in H;
    [exact H|].
  destruct zs as [|a l]; [congruence|]. simpl length. lia.
Qed.


(** ** What [int()] accepts *)











(** ** The rating adapter *)

(** C2 (amended): on an empty review set [get_airbnb_rating] has no guard.
    It neither raises nor returns a marker for "no reviews": the request is
    sent, the mean of zero ratings is NaN, and the value returned is the
    integer that the cast of NaN gives on the platform. *)
Theorem empty_reviews_return_nan_cast (w : World) (id : id_arg) (off lim : Z)
    (h : list call) (n : Z) :
  py_int (remove_char "." (py_str id)) = Ok n ->
  api_get_reviews w h n off lim = Ok [] ->
  get_airbnb_rating w id off lim h
    = (Ok (astype_int w NaN), h ++ [CallGetReviews n off lim])
  /\ np_average [] = NaN
  /\ astype_int w NaN = invalid_cast w.
Proof.
  intros Hid Hrev. rewrite get_airbnb_rating_eq, Hid, Hrev. auto.
Qed.

Lemma empty_reviews_return_nan_cast_witness :
  get_airbnb_rating world_no_reviews (IdInt 2) 0 20 []
    = (Ok (astype_int world_no_reviews NaN), [] ++ [CallGetReviews 2 0 20])
  /\ np_average [] = NaN
  /\ astype_int world_no_reviews NaN = invalid_cast world_no_reviews.
Proof.
  apply (empty_reviews_return_nan_cast world_no_reviews (IdInt 2) 0 20 [] 2);
    reflexivity.
Defined.

(** C2 fails as stated: with a review service that has no review of listing
    2, the call returns normally, and what it returns is the cast of the NaN
    mean (here the least int64), not an error and not a marker. *)
Lemma empty_reviews_not_signalled :
  api_get_reviews world_no_reviews [] 2 0 20 = Ok []
  /\ fst (get_airbnb_rating world_no_reviews (IdInt 2) 0 20 [])
     = Ok (astype_int world_no_reviews (np_average []))
  /\ np_average [] = NaN
  /\ fst (get_airbnb_rating world_no_reviews (IdInt 2) 0 20 []) = Ok int64_min
  /\ (forall e, fst (get_airbnb_rating world_no_reviews (IdInt 2) 0 20 []) <> Raise e).
Proof.
  repeat split; try reflexivity. intros e. vm_compute. discriminate.
Qed.

(** C3 (amended): the value returned for a non-empty review set is the
    int64 cast of the float64 mean of the ratings.  When the ratings are
    whole numbers (ints, or floats without a fractional part) whose absolute
    values add up to less than 2^53, as star ratings are, that is the exact
    mean rounded toward zero, the quotient of their sum by their number:
    ratings 4, 5, 5 give 4 (not the nearest integer 5) and ratings 5, 5
    give 5. *)
Theorem average_rating_truncates (w : World) (id : id_arg) (off lim : Z)
    (h : list call) (n : Z) (reviews : list Review) :
  py_int (remove_char "." (py_str id)) = Ok n ->
  api_get_reviews w h n off lim = Ok reviews ->
  reviews <> [] ->
  fst (get_airbnb_rating w id off lim h)
    = Ok (astype_int w (np_average (map rating reviews)))
  /\ (forall zs,
        map whole_rating (map rating reviews) = map Some zs ->
        zabs zs < 2 ^ 53 ->
        exists z,
          fst (get_airbnb_rating w id off lim h) = Ok z
          /\ truncates (exact_mean zs) z
          /\ z = Z.quot (zsum zs) (Z.of_nat (length zs)))
  /\ astype_int w (np_average (map rating three_reviews)) = 4
  /\ astype_int w (np_average (map rating two_reviews)) = 5.
Proof.
  intros Hid Hrev Hne.
  assert (map rating reviews <> []) as Hne'
    by (destruct reviews; [congruence | discriminate]).
  rewrite get_airbnb_rating_eq, Hid, Hrev. simpl fst.
  split; [reflexivity|]. split; [|split; vm_compute; reflexivity].
  intros zs Hint Hb.
  assert (zs <> []) as Hzs.
  { intros ->. destruct reviews; [congruence | discriminate]. }
  rewrite (astype_int_ints w _ zs Hne' Hint Hb).
  eexists. split; [reflexivity|]. split; [|reflexivity].
  apply quot_truncates_mean, Hzs.
Qed.

Lemma average_rating_truncates_witness :
  fst (get_airbnb_rating world_up (IdInt 1) 0 20 [])
    = Ok (astype_int world_up (np_average (map rating three_reviews)))
  /\ (exists z,
        fst (get_airbnb_rating world_up (IdInt 1) 0 20 []) = Ok z
        /\ truncates (exact_mean [4; 5; 5]) z
        /\ z = Z.quot (zsum [4; 5; 5]) (Z.of_nat (length [4; 5; 5]))).
Proof.
  destruct (average_rating_truncates world_up (IdInt 1) 0 20 [] 1 three_reviews)
    as (H1 & H2 & _); [reflexivity | reflexivity | discriminate |].
  split; [exact H1|].
  apply (H2 [4; 5; 5]); [reflexivity | vm_compute; reflexivity].
Defined.

(** C3 fails as stated: the mean is a float64 and is rounded before it is
    cast.  The ratings 0.9999999999999999 and 1.0 have a mean below 1, whose
    whole part is 0, but their float64 sum is 2.0 and the value returned is 1;
    and the single int rating 2^53 + 1 comes back as 2^53. *)
Lemma mean_rounded_before_cast :
  round64 (9999999999999999 # 10000000000000000) = Finite below_one
  /\ api_get_reviews world_fractional_reviews [] 1 0 20 = Ok fractional_reviews
  /\ fst (get_airbnb_rating world_fractional_reviews (IdInt 1) 0 20 []) = Ok 1
  /\ ((below_one + 1) / 2 < 1)%Q
  /\ truncates ((below_one + 1) / 2) 0
  /\ ~ truncates ((below_one + 1) / 2) 1
  /\ api_get_reviews world_large_review [] 1 0 20 = Ok large_review
  /\ map whole_rating (map rating large_review) = [Some (2 ^ 53 + 1)]
  /\ fst (get_airbnb_rating world_large_review (IdInt 1) 0 20 []) = Ok (2 ^ 53)
  /\ ~ truncates (exact_mean [2 ^ 53 + 1]) (2 ^ 53).
Proof.
  split; [vm_compute; reflexivity|]. split; [reflexivity|].
  split; [vm_compute; reflexivity|]. split; [vm_compute; reflexivity|].
  split; [|split; [|split; [reflexivity|split; [reflexivity|split]]]].
  - split.
    + intros _. split; [vm_compute; discriminate | vm_compute; reflexivity].
    + intros H. exfalso. vm_compute in H. apply H. reflexivity.
  - intros [H _]. destruct H as [H1 _]; [vm_compute; discriminate|].
    vm_compute in H1. apply H1. reflexivity.
  - vm_compute. reflexivity.
  - intros [H _]. destruct H as [_ H2]; [vm_compute; discriminate|].
    vm_compute in H2. discriminate H2.
Qed.




(** ** The enrichment loop, row by row *)

(** One turn of the loop, by the answers of the two services. *)
Lemma enrich_one_eq (w : World) (r : DisplayRow) (h : list call) :
  enrich_one w r h =
  match geolocator_reverse w h (d_Latitude r) (d_Longitude r) with
  | Raise e => (Raise e, h ++ [CallReverse (d_Latitude r) (d_Longitude r)])
  | Ok location =>
      match api_get_reviews w (h ++ [CallReverse (d_Latitude r) (d_Longitude r)])
                            (d_Airbnb_Listing_ID r) default_offset default_limit_results with
      | Raise e => (Raise e, h ++ calls_of_row r)
      | Ok reviews =>
          match location with
          | None => (Raise AttributeError, h ++ calls_of_row r)
          | Some loc =>
              (Ok (mkEnrichedRecord (d_Airbnb_Listing_ID r)
                     (str_mul star (astype_int w (np_average (map rating reviews))))
                     (display_name loc)),
               h ++ calls_of_row r)
          end
      end
  end.
Proof.
  cbv [enrich_one reverse calls_of_row mbind M_bind mret M_ret raise].
  destruct (geolocator_reverse w h _ _) as [location|e]; [|reflexivity].
  rewrite get_airbnb_rating_eq. simpl py_str. rewrite py_int_str_of_int.
  rewrite <- app_assoc. simpl app.
  destruct (api_get_reviews w _ _ _ _) as [reviews|e]; [|reflexivity].
  destruct location; reflexivity.
Qed.

(** The turn for position [length pre] works on the row at that position. *)
Lemma enrich_row_at (w : World) (pre : list DisplayRow) (r : DisplayRow)
    (post : list DisplayRow) (acc : list EnrichedRecord) (h : list call) :
  enrich_row w (pre ++ r :: post) acc (length pre) h =
  match enrich_one w r h with
  | (Ok e, h') => (Ok (acc ++ [e]), h')
  | (Raise x, h') => (Raise x, h')
  end.
Proof.
  unfold enrich_row, enrich_one. rewrite !getitem_map_middle.
  cbv [reverse lift mbind M_bind mret M_ret raise].
  destruct (geolocator_reverse w h _ _) as [location|e]; [|reflexivity].
  destruct (get_airbnb_rating w _ _ _ _) as [[n|e] h']; [|reflexivity].
  destruct location; reflexivity.
Qed.

(** The index loop does what the row-by-row reading does. *)
Lemma for_each_enrich (w : World) (post pre : list DisplayRow)
    (acc : list EnrichedRecord) (h : list call) :
  for_each (enrich_row w (pre ++ post)) (seq (length pre) (length post)) acc h =
  match enrich_all w post h with
  | (Ok es, h') => (Ok (acc ++ es), h')
  | (Raise x, h') => (Raise x, h')
  end.
Proof.
  revert pre acc h. induction post as [|r post IH]; intros pre acc h.
  - simpl. rewrite app_nil_r. reflexivity.
  - simpl seq. simpl for_each. simpl enrich_all.
    cbv [mbind M_bind mret M_ret].
    rewrite enrich_row_at.
    destruct (enrich_one w r h) as [[e|x] h1]; [|reflexivity].
    specialize (IH (pre ++ [r]) (acc ++ [e]) h1).
    rewrite <- app_assoc, length_app, Nat.add_1_r in IH. simpl in IH.
    rewrite IH.
    destruct (enrich_all w post h1) as [[es|x] h2]; [|reflexivity].
    rewrite <- app_assoc. reflexivity.
Qed.

Lemma getLocationDisplayNameByDF_rows (w : World) (sel : list DisplayRow) (h : list call) :
  getLocationDisplayNameByDF w sel h = enrich_all w sel h.
Proof.
  unfold getLocationDisplayNameByDF.
  pose proof (for_each_enrich w sel [] [] h) as E. simpl in E. rewrite E.
  destruct (enrich_all w sel h) as [[es|x] h']; reflexivity.
Qed.

(** A pass over [pre ++ post] is a pass over [pre] and then, if that one
    returned, a pass over [post]. *)
Lemma enrich_all_app (w : World) (pre post : list DisplayRow) (h : list call) :
  enrich_all w (pre ++ post) h =
  match enrich_all w pre h with
  | (Ok es, h1) =>
      match enrich_all w post h1 with
      | (Ok es', h2) => (Ok (es ++ es'), h2)
      | (Raise x, h2) => (Raise x, h2)
      end
  | (Raise x, h1) => (Raise x, h1)
  end.
Proof.
  revert h. induction pre as [|r pre IH]; intros h; simpl.
  - destruct (enrich_all w post h) as [[es|x] h']; reflexivity.
  - cbv [mbind M_bind mret M_ret].
    destruct (enrich_one w r h) as [[e|x] h1]; [|reflexivity].
    rewrite IH.
    destruct (enrich_all w pre h1) as [[es|x] h2]; [|reflexivity].
    destruct (enrich_all w post h2) as [[es'|x] h3]; reflexivity.
Qed.

(** The requests of one turn are the row's requests, or a first part of
    them when the turn raises. *)
Lemma enrich_one_calls (w : World) (r : DisplayRow) (h : list call) :
  (exists k, snd (enrich_one w r h) = h ++ k /\ k `prefix_of` calls_of_row r)
  /\ (forall e, fst (enrich_one w r h) = Ok e ->
        snd (enrich_one w r h) = h ++ calls_of_row r
        /\ e_Airbnb_Listing_ID e = d_Airbnb_Listing_ID r).
Proof.
  rewrite enrich_one_eq.
  destruct (geolocator_reverse w h _ _) as [location|x].
  - destruct (api_get_reviews w _ _ _ _) as [reviews|x];
      [destruct location|]; simpl; (split; [eexists; split; [reflexivity|reflexivity]|]);
      intros e [=]. subst e. auto.
  - simpl. split; [|intros e [=]].
    eexists. split; [reflexivity|]. exists [CallGetReviews (d_Airbnb_Listing_ID r)
                                              default_offset default_limit_results].
    reflexivity.
Qed.

Lemma enrich_all_calls (w : World) (rows : list DisplayRow) (h : list call) :
  (exists k, snd (enrich_all w rows h) = h ++ k /\ k `prefix_of` calls_of rows)
  /\ (forall es, fst (enrich_all w rows h) = Ok es ->
        snd (enrich_all w rows h) = h ++ calls_of rows
        /\ map e_Airbnb_Listing_ID es = map d_Airbnb_Listing_ID rows).
Proof.
  revert h. induction rows as [|r rows IH]; intros h; simpl.
  - split; [exists []; rewrite app_nil_r; auto | intros es [= <-]; rewrite app_nil_r; auto].
  - cbv [mbind M_bind mret M_ret].
    destruct (enrich_one_calls w r h) as [(k & Hk & Hpre) Hok].
    destruct (enrich_one w r h) as [[e|x] h1]; simpl in *.
    + destruct (Hok e eq_refl) as [-> He].
      destruct (IH (h ++ calls_of_row r)) as [(k' & Hk' & Hpre') Hok'].
      unfold calls_of in *.
      destruct (enrich_all w rows (h ++ calls_of_row r)) as [[es|x] h2]; simpl in *.
      * destruct (Hok' es eq_refl) as [-> Hes]. split.
        -- exists (calls_of_row r ++ flat_map calls_of_row rows).
           rewrite app_assoc. auto.
        -- intros es' [= <-]. simpl.
           split; [rewrite <- app_assoc; reflexivity | congruence].
      * split; [|intros es [=]]. subst h2.
        exists (calls_of_row r ++ k'). rewrite app_assoc. split; [reflexivity|].
        change (calls_of_row r ++ k' `prefix_of` calls_of_row r ++ flat_map calls_of_row rows).
        apply prefix_app, Hpre'.
    + split; [|intros es [=]]. exists k. split; [exact Hk|].
      change (k `prefix_of` calls_of_row r ++ flat_map calls_of_row rows).
      apply prefix_app_r, Hpre.
Qed.


Lemma enrich_all_raises_at (w : World) (pre : list DisplayRow) (r : DisplayRow)
    (post : list DisplayRow) (h h1 h2 : list call) (es : list EnrichedRecord) (x : exn) :
  enrich_all w pre h = (Ok es, h1) ->
  enrich_one w r h1 = (Raise x, h2) ->
  enrich_all w (pre ++ r :: post) h = (Raise x, h2).
Proof.
  intros Hpre Hr. rewrite enrich_all_app, Hpre. simpl enrich_all.
  cbv [mbind M_bind mret M_ret]. rewrite Hr. reflexivity.
Qed.

(** ** The enrichment assembler *)




(** C6 (amended): a failure of the geocoder or of the review service on one
    row is not isolated.  When the rows before it went through and one of the
    two requests about the row raises, the whole pass raises that exception:
    no record is returned, not even for the rows already done, and no request
    is sent about the rows after it. *)
Theorem adapter_failure_aborts_pass (w : World) (pre : list DisplayRow)
    (r : DisplayRow) (post : list DisplayRow) (h h1 : list call)
    (es : list EnrichedRecord) (e : exn) :
  getLocationDisplayNameByDF w pre h = (Ok es, h1) ->
  (geolocator_reverse w h1 (d_Latitude r) (d_Longitude r) = Raise e
   \/ (exists loc, geolocator_reverse w h1 (d_Latitude r) (d_Longitude r) = Ok loc)
      /\ api_get_reviews w (h1 ++ [CallReverse (d_Latitude r) (d_Longitude r)])
                         (d_Airbnb_Listing_ID r) default_offset default_limit_results
         = Raise e) ->
  exists k,
    getLocationDisplayNameByDF w (pre ++ r :: post) h
      = (Raise e, (h ++ calls_of pre) ++ k)
    /\ k `prefix_of` calls_of_row r
    /\ k <> [].
Proof.
  rewrite !getLocationDisplayNameByDF_rows. intros Hpre Hfail.
  destruct (enrich_all_calls w pre h) as [_ Hok].
  rewrite Hpre in Hok. destruct (Hok es eq_refl) as [Hh1 _]. simpl in Hh1.
  rewrite <- Hh1.
  destruct Hfail as [Hgeo | [[loc Hgeo] Hrev]].
  - exists [CallReverse (d_Latitude r) (d_Longitude r)]. split; [|split].
    + apply (enrich_all_raises_at w pre r post h h1 _ es e Hpre).
      rewrite enrich_one_eq, Hgeo. reflexivity.
    + eexists. reflexivity.
    + discriminate.
  - exists (calls_of_row r). split; [|split].
    + apply (enrich_all_raises_at w pre r post h h1 _ es e Hpre).
      rewrite enrich_one_eq, Hgeo, Hrev. reflexivity.
    + reflexivity.
    + discriminate.
Qed.

Lemma adapter_failure_aborts_pass_witness :
  exists k,
    getLocationDisplayNameByDF world_reviews_down ([shown_row 3] ++ shown_row 1 :: [shown_row 2]) []
      = (Raise (ServiceError "unreachable"), ([] ++ calls_of [shown_row 3]) ++ k)
    /\ k `prefix_of` calls_of_row (shown_row 1)
    /\ k <> [].
Proof.
  apply (adapter_failure_aborts_pass world_reviews_down [shown_row 3] (shown_row 1)
           [shown_row 2] [] (calls_of [shown_row 3])
           [mkEnrichedRecord 3 (str_mul star 4) "Dam 1, Amsterdam"]
           (ServiceError "unreachable")).
  - reflexivity.
  - right. split; [eexists; reflexivity | reflexivity].
Defined.

(** C6 fails as stated: when the geocoder times out on the first request, the
    pass over two rows raises after that one request.  The second row, about
    which both services would have answered, is never processed, and no
    record with an error marker is returned. *)
Lemma failure_not_isolated :
  getLocationDisplayNameByDF world_geocoder_flaky two_rows []
    = (Raise (ServiceError "timed out"),
       [CallReverse (d_Latitude (shown_row 1)) (d_Longitude (shown_row 1))])
  /\ (forall es, fst (getLocationDisplayNameByDF world_geocoder_flaky two_rows []) <> Ok es)
  /\ (exists e,
        getLocationDisplayNameByDF world_geocoder_flaky [shown_row 2]
          [CallReverse (d_Latitude (shown_row 1)) (d_Longitude (shown_row 1))]
        = (Ok [e],
           CallReverse (d_Latitude (shown_row 1)) (d_Longitude (shown_row 1))
             :: calls_of_row (shown_row 2))).
Proof.
  split; [reflexivity|]. split.
  - intros es. vm_compute. discriminate.
  - eexists. reflexivity.
Qed.




(** ** The frames as objects: what the filter touches *)

Lemma sublist_map {A B : Type} (f : A -> B) (l1 l2 : list A) :
  sublist l1 l2 -> sublist (map f l1) (map f l2).
Proof. induction 1; simpl; constructor; assumption. Qed.

Lemma sublist_In {A : Type} (l1 l2 : list A) (x : A) :
  sublist l1 l2 -> In x l1 -> In x l2.
Proof.
  induction 1 as [|y l1 l2 _ IH|y l1 l2 _ IH]; simpl; tauto.
Qed.

(** An indexing statement allocates: the new frame sits at a fresh place,
    the name moves there, and every object that was on the heap stays as it
    was. *)
Lemma exec_filter_spec (select : DataFrame -> DataFrame) (st : Store) (T : DataFrame) :
  heap st !! dataframe_ref st = Some (ObjFrame T) ->
  exists st',
    exec_filter select st = Ok st'
    /\ heap st' !! dataframe_ref st' = Some (ObjFrame (select T))
    /\ (forall l o, heap st !! l = Some o ->
          heap st' !! l = Some o /\ l <> dataframe_ref st').
Proof.
  intros Hin. unfold exec_filter. rewrite Hin.
  eexists. split; [reflexivity|]. simpl. split.
  - apply lookup_insert_eq.
  - intros l o Hl.
    assert (l <> fresh (dom (heap st))) as Hne.
    { intros ->. apply (is_fresh (dom (heap st))).
      apply elem_of_dom. exists o. exact Hl. }
    split; [|exact Hne]. rewrite lookup_insert_ne by congruence. exact Hl.
Qed.

Lemma exec_display_block_frame (w : World) (st st' : Store) (l : positive) :
  exec_display_block w st = Ok st' ->
  l <> dataframe_ref st ->
  heap st' !! l = heap st !! l.
Proof.
  unfold exec_display_block.
  destruct (heap st !! dataframe_ref st) as [[rows|rows]|]; try discriminate.
  destruct (display_block w rows) as [shown|e]; simpl; [|discriminate].
  intros [= <-] Hne. simpl. apply lookup_insert_ne. congruence.
Qed.

(** C9: the two filter statements do not touch the frame they index.  After
    them the name [dataframe] is bound to a new object that holds the
    filtered rows, the indexed object (and every other object) is unchanged,
    every surviving row is a row of the input with all six values as they
    were, and the surviving rows and their identifiers are in input order:
    rows are only removed.  Running on through the display block of lines 143
    to 149 still leaves the indexed object as it was. *)
Theorem filter_leaves_input_alone (w : World) (st : Store) (T : DataFrame) (p d : Z) :
  heap st !! dataframe_ref st = Some (ObjFrame T) ->
  exists st',
    exec_filter_stage p d st = Ok st'
    /\ heap st' !! dataframe_ref st' = Some (ObjFrame (filter_stage T p d))
    /\ dataframe_ref st' <> dataframe_ref st
    /\ heap st' !! dataframe_ref st = Some (ObjFrame T)
    /\ (forall l o, heap st !! l = Some o -> heap st' !! l = Some o)
    /\ (forall r, In r (filter_stage T p d) -> In r T)
    /\ sublist (filter_stage T p d) T
    /\ sublist (map Airbnb_Listing_ID (filter_stage T p d)) (map Airbnb_Listing_ID T)
    /\ (forall st'', exec_filter_and_display w p d st = Ok st'' ->
          heap st'' !! dataframe_ref st = Some (ObjFrame T)).
Proof.
  intros Hin.
  destruct (exec_filter_spec (fun df => filter_price df p) st T Hin)
    as (st1 & E1 & Hnew1 & Hold1).
  destruct (exec_filter_spec (fun df => filter_distance df d) st1 _ Hnew1)
    as (st2 & E2 & Hnew2 & Hold2).
  assert (forall l o, heap st !! l = Some o ->
            heap st2 !! l = Some o /\ l <> dataframe_ref st2) as Hold.
  { intros l o Hl. apply Hold2. apply (Hold1 l o Hl). }
  assert (sublist (filter_stage T p d) T) as Hsub.
  { rewrite filter_stage_eq. apply filter_sublist. }
  assert (exec_filter_stage p d st = Ok st2) as E12
    by (unfold exec_filter_stage; rewrite E1; exact E2).
  exists st2. split; [exact E12|]. split; [exact Hnew2|].
  destruct (Hold _ _ Hin) as [Hkeep Hne].
  split; [congruence|]. split; [exact Hkeep|].
  split; [intros l o Hl; apply (Hold l o Hl)|].
  split; [intros r; apply sublist_In, Hsub|].
  split; [exact Hsub|]. split; [apply sublist_map, Hsub|].
  intros st3 E3. unfold exec_filter_and_display in E3. rewrite E12 in E3.
  rewrite (exec_display_block_frame w st2 st3 _ E3 Hne). exact Hkeep.
Qed.

Lemma filter_leaves_input_alone_witness :
  exists st',
    exec_filter_stage 100 1000 (store_of scenario_table) = Ok st'
    /\ heap st' !! dataframe_ref st' = Some (ObjFrame (filter_stage scenario_table 100 1000))
    /\ dataframe_ref st' <> dataframe_ref (store_of scenario_table)
    /\ heap st' !! dataframe_ref (store_of scenario_table) = Some (ObjFrame scenario_table)
    /\ (forall l o, heap (store_of scenario_table) !! l = Some o -> heap st' !! l = Some o)
    /\ (forall r, In r (filter_stage scenario_table 100 1000) -> In r scenario_table)
    /\ sublist (filter_stage scenario_table 100 1000) scenario_table
    /\ sublist (map Airbnb_Listing_ID (filter_stage scenario_table 100 1000))
               (map Airbnb_Listing_ID scenario_table)
    /\ (forall st'', exec_filter_and_display world_up 100 1000 (store_of scenario_table) = Ok st'' ->
          heap st'' !! dataframe_ref (store_of scenario_table) = Some (ObjFrame scenario_table)).
Proof.
  apply (filter_leaves_input_alone world_up (store_of scenario_table) scenario_table 100 1000).
  reflexivity.
Defined.

(** ** The centre of the map *)

Lemma display_block_length (w : World) (df : DataFrame) (shown : list DisplayRow) :
  display_block w df = Ok shown -> length shown = length df.
Proof.
  unfold display_block, series_astype_int.
  destruct (forallb is_finite _); simpl; [|discriminate].
  intros [= <-]. rewrite length_map, length_combine, !length_map. lia.
Qed.

(** C10: line 168 reads the first row of the filtered frame without a test.
    The read succeeds exactly when the frame has a row, and then gives that
    row's latitude and longitude; when the two filters leave no row it raises
    IndexError, which ends the run of the tab before anything is drawn and
    before any service is asked. *)
Theorem map_center_needs_a_row (w : World) (T : DataFrame) (p d : Z) (h : list call) :
  (filter_stage T p d = [] ->
     tab2_data_analysis w T p d h = (Raise IndexError, h))
  /\ (forall df, map_center df = Raise IndexError <-> df = [])
  /\ (forall r rest, map_center (r :: rest) = Ok (d_Latitude r, d_Longitude r))
  /\ (forall shown, display_block w (filter_stage T p d) = Ok shown ->
        (shown = [] <-> filter_stage T p d = [])).
Proof.
  split; [|split; [|split]].
  - intros E. unfold tab2_data_analysis. rewrite E. reflexivity.
  - intros [|r rest]; simpl; split; try reflexivity; discriminate.
  - reflexivity.
  - intros shown E. apply display_block_length in E.
    destruct shown, (filter_stage T p d); simpl in E; split; congruence.
Qed.

Lemma map_center_needs_a_row_witness :
  tab2_data_analysis world_up scenario_table 10 1000 [] = (Raise IndexError, []).
Proof.
  apply (map_center_needs_a_row world_up scenario_table 10 1000 []). reflexivity.
Defined.

(** ** More on the filter stage *)

Lemma f64_le_int_mono (x : f64) (k k' : Z) :
  k <= k' -> f64_le_int x k = true -> f64_le_int x k' = true.
Proof.
  intros Hk. rewrite !f64_le_int_spec. destruct x; simpl; try tauto.
  intros H. eapply Qle_trans; [exact H|]. rewrite <- Zle_Qle. exact Hk.
Qed.

Lemma f64_le_int_min (x : f64) (k k' : Z) :
  f64_le_int x (Z.min k k') = f64_le_int x k && f64_le_int x k'.
Proof.
  destruct (Z.min_spec k k') as [[Hlt ->]|[Hle ->]].
  - destruct (f64_le_int x k) eqn:E; [|reflexivity].
    rewrite (f64_le_int_mono x k k') by (lia || exact E). reflexivity.
  - destruct (f64_le_int x k') eqn:E; [|apply eq_sym, andb_false_r].
    rewrite (f64_le_int_mono x k' k) by (lia || exact E). reflexivity.
Qed.

Lemma filter_sublist_impl {A : Type} (f g : A -> bool) (l : list A) :
  (forall x, f x = true -> g x = true) ->
  sublist (List.filter f l) (List.filter g l).
Proof.
  intros Hfg. induction l as [|x l IH]; simpl; [constructor|].
  destruct (f x) eqn:E.
  - rewrite (Hfg x E). constructor. exact IH.
  - destruct (g x); [constructor|]; exact IH.
Qed.

(** X1: the two filters commute: keeping the rows within the distance first
    and the rows within the budget second gives the same frame. *)
Theorem filter_order_irrelevant (T : DataFrame) (p d : Z) :
  filter_distance (filter_price T p) d = filter_price (filter_distance T d) p.
Proof.
  rewrite !filter_distance_eq, !filter_price_eq, !filter_filter_andb.
  apply filter_ext. intros r. apply andb_comm.
Qed.

(** X2: raising a threshold never loses a row: the frame for the smaller
    thresholds is an order-preserving part of the frame for the larger
    ones. *)
Theorem filter_stage_monotone (T : DataFrame) (p p' d d' : Z) :
  p <= p' -> d <= d' ->
  sublist (filter_stage T p d) (filter_stage T p' d').
Proof.
  intros Hp Hd. rewrite !filter_stage_eq. apply filter_sublist_impl.
  intros r. unfold keepb. rewrite !andb_true_iff. intros [H1 H2].
  split; eapply f64_le_int_mono; eassumption.
Qed.

Lemma filter_stage_monotone_witness :
  sublist (filter_stage scenario_table 100 1000) (filter_stage scenario_table 200 1000).
Proof.
  apply (filter_stage_monotone scenario_table 100 200 1000 1000); lia.
Defined.

(** X3: filtering an already filtered frame with other thresholds is
    filtering the loaded frame with the smaller of each pair. *)
Theorem filter_stage_twice (T : DataFrame) (p d p' d' : Z) :
  filter_stage (filter_stage T p d) p' d'
  = filter_stage T (Z.min p p') (Z.min d d').
Proof.
  rewrite !filter_stage_eq, filter_filter_andb. apply filter_ext.
  intros r. unfold keepb. rewrite !f64_le_int_min.
  destruct (f64_le_int (Price r) p), (f64_le_int (Price r) p'),
    (f64_le_int (Dist_m_from_loc r) d), (f64_le_int (Dist_m_from_loc r) d');
    reflexivity.
Qed.

(** X4: a row whose price or distance is missing (NaN) or infinitely large
    does not survive the filter, whatever the thresholds. *)
Theorem filter_drops_missing_values (T : DataFrame) (p d : Z) (r : Listing) :
  In r (filter_stage T p d) ->
  Price r <> NaN /\ Price r <> PosInf
  /\ Dist_m_from_loc r <> NaN /\ Dist_m_from_loc r <> PosInf.
Proof.
  rewrite filter_stage_eq. intros H. apply filter_In in H as [_ H].
  unfold keepb in H. apply andb_true_iff in H as [H1 H2].
  destruct (Price r), (Dist_m_from_loc r); simpl in *;
    try discriminate; repeat split; discriminate.
Qed.

Lemma filter_drops_missing_values_witness :
  Price (row_of 1 50 500) <> NaN /\ Price (row_of 1 50 500) <> PosInf
  /\ Dist_m_from_loc (row_of 1 50 500) <> NaN
  /\ Dist_m_from_loc (row_of 1 50 500) <> PosInf.
Proof.
  apply (filter_drops_missing_values scenario_table 100 1000 (row_of 1 50 500)).
  vm_compute. left. reflexivity.
Defined.

(** ** Row selection *)

Lemma getitem_mask_positions {A : Type} (c : nat -> bool) (l : list A) (k : nat) (x : A) :
  In x (getitem_mask l (map c (seq k (length l))))
  <-> exists i, nth_error l i = Some x /\ c (k + i)%nat = true.
Proof.
  revert k. induction l as [|a l IH]; intros k; simpl.
  - split; [tauto|]. intros (i & H & _). destruct i; discriminate.
  - destruct (c k) eqn:E; simpl; rewrite IH; split.
    + intros [<-|(i & Hi & Hc)].
      * exists 0%nat. rewrite Nat.add_0_r. auto.
      * exists (S i). rewrite Nat.add_succ_r. auto.
    + intros ([|i] & Hi & Hc); simpl in Hi.
      * left. congruence.
      * right. exists i. rewrite Nat.add_succ_r in Hc. auto.
    + intros (i & Hi & Hc). exists (S i). rewrite Nat.add_succ_r. auto.
    + intros ([|i] & Hi & Hc); simpl in Hi.
      * rewrite Nat.add_0_r in Hc. congruence.
      * exists i. rewrite Nat.add_succ_r in Hc. auto.
Qed.

Lemma getitem_mask_sublist {A : Type} (l : list A) (mask : list bool) :
  sublist (getitem_mask l mask) l.
Proof.
  revert mask. induction l as [|a l IH]; intros [|b mask]; simpl;
    try apply sublist_nil_l.
  destruct b; constructor; apply IH.
Qed.

Lemma getitem_mask_all {A : Type} (c : nat -> bool) (b : bool) (l : list A) (k : nat) :
  (forall i, c i = b) ->
  getitem_mask l (map c (seq k (length l))) = if b then l else [].
Proof.
  intros Hc. revert k. induction l as [|a l IH]; intros k; simpl.
  - destruct b; reflexivity.
  - rewrite (Hc k), IH. destruct b; reflexivity.
Qed.

Lemma editor_steps_from (c : nat -> bool) (l : list DisplayRow) (k : nat) :
  let edited := map (fun ir : nat * (bool * DisplayRow) => (c (fst ir), snd (snd ir)))
                    (combine (seq k (length (insert_select l))) (insert_select l)) in
  map snd (getitem_mask edited (map fst edited))
  = getitem_mask l (map c (seq k (length l))).
Proof.
  revert k. induction l as [|a l IH]; intros k; [reflexivity|].
  simpl. specialize (IH (S k)). simpl in IH.
  destruct (c k); simpl; rewrite IH; reflexivity.
Qed.

(** X5: the copy, the added "Select" column, the editor, the mask on that
    column and the removal of the column together return the rows whose box
    is ticked: the statement-by-statement reading of
    [dataframe_with_selections] agrees with the direct one. *)
Theorem dataframe_with_selections_steps_eq (w : World) (df : list DisplayRow) :
  dataframe_with_selections_steps w df = dataframe_with_selections w df.
Proof.
  unfold dataframe_with_selections_steps, dataframe_with_selections,
    drop_select, data_editor.
  apply (editor_steps_from (checked w df) df 0).
Qed.

(** X6: the selection holds exactly the rows at ticked positions, in the
    order of the table, each with its columns as shown; with no box ticked it
    is empty, with every box ticked it is the whole table. *)
Theorem selection_is_ticked_rows (w : World) (df : list DisplayRow) :
  sublist (dataframe_with_selections w df) df
  /\ (forall r, In r (dataframe_with_selections w df)
                <-> exists i, nth_error df i = Some r /\ checked w df i = true)
  /\ ((forall i, checked w df i = false) -> dataframe_with_selections w df = [])
  /\ ((forall i, checked w df i = true) -> dataframe_with_selections w df = df).
Proof.
  unfold dataframe_with_selections. split; [apply getitem_mask_sublist|].
  split; [intros r; apply (getitem_mask_positions (checked w df) df 0)|].
  split; intros H.
  - apply (getitem_mask_all (checked w df) false df 0 H).
  - apply (getitem_mask_all (checked w df) true df 0 H).
Qed.

Lemma selection_is_ticked_rows_witness :
  dataframe_with_selections world_nothing_ticked two_rows = []
  /\ dataframe_with_selections world_up two_rows = two_rows.
Proof.
  split.
  - apply (selection_is_ticked_rows world_nothing_ticked two_rows). reflexivity.
  - apply (selection_is_ticked_rows world_up two_rows). reflexivity.
Defined.

(** ** The display block *)

Lemma map_combine_map {A B C : Type} (f : A -> B) (g : B -> A -> C) (l : list A) :
  map (fun p => g (fst p) (snd p)) (combine (map f l) l) = map (fun a => g (f a) a) l.
Proof. induction l as [|a l IH]; simpl; [|rewrite IH]; reflexivity. Qed.

Lemma forallb_of_map {A B : Type} (f : A -> B) (P : B -> bool) (l : list A) :
  forallb P (map f l) = forallb (fun a => P (f a)) l.
Proof. induction l as [|a l IH]; simpl; [|rewrite IH]; reflexivity. Qed.

(** The display block in one equation: it fails when an identifier is missing
    or infinite, and otherwise rewrites the rows one by one. *)
Lemma display_block_eq (w : World) (df : DataFrame) :
  display_block w df
  = if forallb (fun r => is_finite (Airbnb_Listing_ID r)) df
    then Ok (map (fun r => display_row w (id_int w (Airbnb_Listing_ID r)) r) df)
    else Raise IntCastingNaNError.
Proof.
  unfold display_block, series_astype_int. rewrite forallb_of_map.
  destruct (forallb _ df); [|reflexivity]. simpl.
  f_equal. rewrite map_map.
  apply (map_combine_map (fun r => id_int w (Airbnb_Listing_ID r))
           (fun id r => display_row w id r) df).
Qed.

Lemma forallb_false_exists {A : Type} (P : A -> bool) (l : list A) :
  forallb P l = false -> exists x, In x l /\ P x = false.
Proof.
  induction l as [|a l IH]; simpl; [discriminate|].
  destruct (P a) eqn:E; simpl.
  - intros H. destruct (IH H) as (x & Hx & Hp). eauto.
  - intros _. eauto.
Qed.

(** The cast of line 143 on a value whose whole part has 64 bits. *)
Lemma id_int_in_range (w : World) (q : Q) :
  in_int64 (Qtrunc q) = true -> id_int w (Finite q) = Qtrunc q.
Proof. unfold id_int, astype_int, cast_finite. intros ->. reflexivity. Qed.

Lemma id_int_of_Z (w : World) (z : Z) :
  in_int64 z = true -> id_int w (Finite (inject_Z z)) = z.
Proof.
  intros H. assert (Qtrunc (inject_Z z) = z) as E by apply Z.quot_1_r.
  rewrite id_int_in_range; rewrite E; auto.
Qed.

(** X7: line 143 decides whether the display block goes through.  It
    raises IntCastingNaNError exactly when some row of the frame has a missing
    or infinite identifier, and raises nothing else; when every identifier is
    finite, it returns the rows rewritten one by one, each with the int64
    cast of its identifier. *)
Theorem display_block_fails_on_missing_id (w : World) (df : DataFrame) :
  ((exists r, In r df /\ is_finite (Airbnb_Listing_ID r) = false) ->
     display_block w df = Raise IntCastingNaNError)
  /\ ((forall r, In r df -> is_finite (Airbnb_Listing_ID r) = true) ->
     display_block w df
     = Ok (map (fun r => display_row w (id_int w (Airbnb_Listing_ID r)) r) df))
  /\ (forall e, display_block w df = Raise e ->
        e = IntCastingNaNError
        /\ exists r, In r df /\ is_finite (Airbnb_Listing_ID r) = false).
Proof.
  rewrite display_block_eq.
  destruct (forallb (fun r => is_finite (Airbnb_Listing_ID r)) df) eqn:E.
  - rewrite forallb_forall in E. split; [|split].
    + intros (r & Hr & Hf). rewrite (E r Hr) in Hf. discriminate.
    + reflexivity.
    + intros e [=].
  - destruct (forallb_false_exists _ _ E) as (r & Hr & Hf). split; [|split].
    + reflexivity.
    + intros H. rewrite (H r Hr) in Hf. discriminate.
    + intros e [= <-]. eauto.
Qed.

Lemma display_block_fails_on_missing_id_witness :
  display_block world_up table_with_missing_id = Raise IntCastingNaNError
  /\ display_block world_up scenario_table
     = Ok (map (fun r => display_row world_up (id_int world_up (Airbnb_Listing_ID r)) r)
               scenario_table).
Proof.
  split.
  - apply (display_block_fails_on_missing_id world_up table_with_missing_id).
    eexists. split; [right; left; reflexivity | reflexivity].
  - apply (display_block_fails_on_missing_id world_up scenario_table).
    intros r [<-|[<-|[]]]; reflexivity.
Defined.

(** X8: when the display block goes through, the frame keeps its rows in
    number and order, and latitude, longitude and distance are untouched.
    The identifier becomes its int64 cast: the value rounded toward zero
    when that has 64 bits, so that a whole identifier of the 64-bit range is
    unchanged, and what the platform's conversion yields otherwise. *)
Theorem display_block_keeps_rows (w : World) (df : DataFrame) (shown : list DisplayRow) :
  display_block w df = Ok shown ->
  length shown = length df
  /\ map d_Latitude shown = map Latitude df
  /\ map d_Longitude shown = map Longitude df
  /\ map d_Dist_m_from_loc shown = map Dist_m_from_loc df
  /\ map d_Airbnb_Listing_ID shown = map (fun r => id_int w (Airbnb_Listing_ID r)) df
  /\ (forall q, in_int64 (Qtrunc q) = true ->
        id_int w (Finite q) = Qtrunc q /\ truncates q (id_int w (Finite q)))
  /\ (forall z, in_int64 z = true -> id_int w (Finite (inject_Z z)) = z)
  /\ (forall q, in_int64 (Qtrunc q) = false ->
        id_int w (Finite q) = overflow_cast w (Finite q)).
Proof.
  rewrite display_block_eq.
  destruct (forallb _ df); [|discriminate]. intros [= <-].
  split; [apply length_map|].
  do 4 (split; [rewrite map_map; reflexivity|]).
  split; [|split].
  - intros [s p] H. rewrite (id_int_in_range w _ H).
    split; [reflexivity | apply Qtrunc_truncates].
  - apply id_int_of_Z.
  - intros q H. unfold id_int, astype_int, cast_finite. rewrite H. reflexivity.
Qed.

Lemma display_block_keeps_rows_witness :
  length (map (fun r => display_row world_up (id_int world_up (Airbnb_Listing_ID r)) r) scenario_table)
    = length scenario_table
  /\ map d_Latitude (map (fun r => display_row world_up (id_int world_up (Airbnb_Listing_ID r)) r)
                         scenario_table)
     = map Latitude scenario_table.
Proof.
  destruct (display_block_keeps_rows world_up scenario_table
              (map (fun r => display_row world_up (id_int world_up (Airbnb_Listing_ID r)) r)
                   scenario_table) eq_refl) as (H1 & H2 & _).
  exact (conj H1 H2).
Defined.

(** ** More on the rating adapter *)

Lemma sum_bounds (ratings : list Z) (lo hi : Z) :
  (forall x, In x ratings -> lo <= x <= hi) ->
  Z.of_nat (length ratings) * lo <= fold_right Z.add 0 ratings
  <= Z.of_nat (length ratings) * hi.
Proof.
  induction ratings as [|a l IH]; intros H; [simpl; lia|].
  specialize (IH (fun x Hx => H x (or_intror Hx))).
  pose proof (H a (or_introl eq_refl)).
  change (fold_right Z.add 0 (a :: l)) with (a + fold_right Z.add 0 l).
  rewrite length_cons, Nat2Z.inj_succ. lia.
Qed.

Lemma quot_bounds (s n lo hi : Z) :
  0 < n -> n * lo <= s <= n * hi -> lo <= Z.quot s n <= hi.
Proof.
  intros Hn Hs. pose proof (Z.quot_rem' s n) as E.
  destruct (Z_le_gt_dec 0 s) as [Hpos|Hneg].
  - pose proof (Z.rem_bound_pos s n Hpos Hn). nia.
  - pose proof (Z.rem_bound_pos_neg s n Hn ltac:(lia)). nia.
Qed.

(** X9: the rating returned for a non-empty set of reviews with whole
    ratings (absolute values adding up to less than 2^53) lies between the
    least and the greatest rating of the set: reviews of one to five stars
    give a rating of one to five. *)
Theorem average_rating_within_ratings (w : World) (id : id_arg) (off lim : Z)
    (h : list call) (n : Z) (reviews : list Review) (zs : list Z) (lo hi : Z) :
  py_int (remove_char "." (py_str id)) = Ok n ->
  api_get_reviews w h n off lim = Ok reviews ->
  reviews <> [] ->
  map whole_rating (map rating reviews) = map Some zs ->
  zabs zs < 2 ^ 53 ->
  (forall x, In x zs -> lo <= x <= hi) ->
  exists z, fst (get_airbnb_rating w id off lim h) = Ok z /\ lo <= z <= hi.
Proof.
  intros Hid Hrev Hne Hint Hsum Hb.
  rewrite get_airbnb_rating_eq, Hid, Hrev. simpl fst.
  assert (map rating reviews <> []) as Hne'
    by (destruct reviews; [congruence | discriminate]).
  rewrite (astype_int_ints w _ zs Hne' Hint Hsum).
  eexists. split; [reflexivity|].
  apply quot_bounds.
  - apply (f_equal (@length _)) in Hint. rewrite !length_map in Hint.
    destruct reviews; [congruence|]. simpl in Hint. lia.
  - apply sum_bounds, Hb.
Qed.

Lemma average_rating_within_ratings_witness :
  exists z, fst (get_airbnb_rating world_up (IdInt 7) 0 20 []) = Ok z /\ 1 <= z <= 5.
Proof.
  apply (average_rating_within_ratings world_up (IdInt 7) 0 20 [] 7 three_reviews
           [4; 5; 5] 1 5).
  - reflexivity.
  - reflexivity.
  - discriminate.
  - reflexivity.
  - vm_compute. reflexivity.
  - intros r [<-|[<-|[<-|[]]]]; lia.
Defined.

Lemma str_mul_nonpositive (s : string) (n : Z) : n <= 0 -> str_mul s n = EmptyString.
Proof.
  intros Hn. unfold str_mul. replace (Z.to_nat n) with 0%nat by lia. reflexivity.
Qed.

(** X10: a selected listing without any review does not stop the pass.  On
    a platform where the cast of NaN is not positive, its record is returned
    with an empty Rating text beside the address. *)
Theorem no_reviews_give_empty_rating_text (w : World) (r : DisplayRow)
    (h : list call) (loc : GeoLocation) :
  invalid_cast w <= 0 ->
  geolocator_reverse w h (d_Latitude r) (d_Longitude r) = Ok (Some loc) ->
  api_get_reviews w (h ++ [CallReverse (d_Latitude r) (d_Longitude r)])
                  (d_Airbnb_Listing_ID r) default_offset default_limit_results
    = Ok [] ->
  getLocationDisplayNameByDF w [r] h
  = (Ok [mkEnrichedRecord (d_Airbnb_Listing_ID r) EmptyString (display_name loc)],
     h ++ calls_of_row r).
Proof.
  intros Hcast Hgeo Hrev. rewrite getLocationDisplayNameByDF_rows.
  simpl enrich_all. cbv [mbind M_bind mret M_ret].
  rewrite enrich_one_eq, Hgeo, Hrev. simpl map.
  change (astype_int w (np_average [])) with (invalid_cast w).
  rewrite (str_mul_nonpositive star _ Hcast). reflexivity.
Qed.

Lemma no_reviews_give_empty_rating_text_witness :
  getLocationDisplayNameByDF world_no_reviews [shown_row 1] []
  = (Ok [mkEnrichedRecord (d_Airbnb_Listing_ID (shown_row 1)) EmptyString
                          (display_name (mkGeoLocation "Dam 1, Amsterdam"))],
     [] ++ calls_of_row (shown_row 1)).
Proof.
  apply (no_reviews_give_empty_rating_text world_no_reviews (shown_row 1) []
           (mkGeoLocation "Dam 1, Amsterdam")).
  - vm_compute. discriminate.
  - reflexivity.
  - reflexivity.
Defined.

(** ** More on the enrichment loop *)




(** X12: a pass over a selection made of two parts is a pass over the first
    part followed, if that one returned, by a pass over the second part that
    starts from the requests already made; the records are those of the
    first part followed by those of the second, and an exception of either
    part is the exception of the whole. *)
Theorem assemble_of_concatenation (w : World) (pre post : list DisplayRow) (h : list call) :
  getLocationDisplayNameByDF w (pre ++ post) h =
  match getLocationDisplayNameByDF w pre h with
  | (Ok es, h1) =>
      match getLocationDisplayNameByDF w post h1 with
      | (Ok es', h2) => (Ok (es ++ es'), h2)
      | (Raise x, h2) => (Raise x, h2)
      end
  | (Raise x, h1) => (Raise x, h1)
  end.
Proof.
  rewrite !getLocationDisplayNameByDF_rows, enrich_all_app.
  destruct (enrich_all w pre h) as [[es|x] h1]; [|reflexivity].
  rewrite getLocationDisplayNameByDF_rows. reflexivity.
Qed.

(** ** The tab as a whole *)

(** The run of the tab, by what the filter leaves. *)
Lemma tab2_data_analysis_eq (w : World) (T : DataFrame) (p d : Z) (h : list call) :
  tab2_data_analysis w T p d h =
  if forallb (fun r => is_finite (Airbnb_Listing_ID r)) (filter_stage T p d) then
    match filter_stage T p d with
    | [] => (Raise IndexError, h)
    | first :: _ =>
        let shown := map (fun r => display_row w (id_int w (Airbnb_Listing_ID r)) r)
                         (filter_stage T p d) in
        let c := (Latitude first, Longitude first) in
        match dataframe_with_selections w shown with
        | [] => (Ok (mkPage shown c None), h)
        | selection =>
            match getLocationDisplayNameByDF w selection h with
            | (Ok addresses, h') => (Ok (mkPage shown c (Some addresses)), h')
            | (Raise e, h') => (Raise e, h')
            end
        end
    end
  else (Raise IntCastingNaNError, h).
Proof.
  unfold tab2_data_analysis. rewrite display_block_eq.
  destruct (forallb _ (filter_stage T p d)); [|reflexivity].
  destruct (filter_stage T p d) as [|first rest]; [reflexivity|].
  simpl map.
  cbv [lift mbind M_bind mret M_ret result_bind map_center iloc getitem nth_error].
  cbv zeta.
  destruct (dataframe_with_selections w _) as [|s sel]; [reflexivity|].
  change (length (s :: sel) =? 0)%nat with false. cbv beta iota zeta.
  destruct (getLocationDisplayNameByDF w (s :: sel) h) as [[a|e] h']; reflexivity.
Qed.

(** X14: a row of the filtered frame whose identifier is missing or
    infinite ends the run of the tab with IntCastingNaNError, whether or not
    any row is ticked, and before any request is sent. *)
Theorem tab_fails_on_missing_id (w : World) (T : DataFrame) (p d : Z)
    (h : list call) (r : Listing) :
  In r T -> keeps p d r -> is_finite (Airbnb_Listing_ID r) = false ->
  tab2_data_analysis w T p d h = (Raise IntCastingNaNError, h).
Proof.
  intros Hin Hk Hf. rewrite tab2_data_analysis_eq.
  destruct (forallb _ (filter_stage T p d)) eqn:E; [|reflexivity].
  rewrite forallb_forall in E. rewrite (E r) in Hf; [discriminate|].
  rewrite filter_stage_eq. apply filter_In. split; [exact Hin|].
  apply keepb_spec, Hk.
Qed.

Lemma tab_fails_on_missing_id_witness :
  tab2_data_analysis world_up table_with_missing_id 100 1000 []
  = (Raise IntCastingNaNError, []).
Proof.
  apply (tab_fails_on_missing_id world_up table_with_missing_id 100 1000 []
           (mkListing NaN (Finite 60) (Finite (5237 # 100)) (Finite (489 # 100))
                      (Finite 300) (Finite 0))).
  - right. left. reflexivity.
  - split; vm_compute; discriminate.
  - reflexivity.
Defined.



(** X16: with no box ticked the tab sends no request at all: if the filter
    leaves a row and every identifier left is finite, the run succeeds with
    the table and the map centre and without a selection table. *)
Theorem tab_without_selection_is_silent (w : World) (T : DataFrame) (p d : Z)
    (h : list call) :
  (forall df i, checked w df i = false) ->
  filter_stage T p d <> [] ->
  (forall r, In r (filter_stage T p d) -> is_finite (Airbnb_Listing_ID r) = true) ->
  exists page,
    tab2_data_analysis w T p d h = (Ok page, h)
    /\ selection_shown page = None.
Proof.
  intros Hno Hne Hfin. rewrite tab2_data_analysis_eq.
  apply forallb_forall in Hfin. rewrite Hfin.
  destruct (filter_stage T p d) as [|first rest]; [congruence|].
  cbv zeta. unfold dataframe_with_selections.
  rewrite (getitem_mask_all _ false _ 0 (Hno _)).
  eexists. split; reflexivity.
Qed.

Lemma tab_without_selection_is_silent_witness :
  exists page,
    tab2_data_analysis world_nothing_ticked scenario_table 100 1000 [] = (Ok page, [])
    /\ selection_shown page = None.
Proof.
  apply (tab_without_selection_is_silent world_nothing_ticked scenario_table 100 1000 []).
  - reflexivity.
  - vm_compute. discriminate.
  - intros r. vm_compute. intros [<-|[]]. reflexivity.
Defined.

Lemma in_calls_of (sel : list DisplayRow) (c : call) :
  In c (calls_of sel) ->
  exists s, In s sel
    /\ (c = CallReverse (d_Latitude s) (d_Longitude s)
        \/ c = CallGetReviews (d_Airbnb_Listing_ID s) default_offset default_limit_results).
Proof.
  unfold calls_of. rewrite in_flat_map. intros (s & Hs & Hc).
  exists s. split; [exact Hs|].
  unfold calls_of_row in Hc. simpl in Hc. intuition congruence.
Qed.

(** X17: the tab asks the services about ticked rows only, and these are
    rows that passed the filter: every request it sends is the geocoder
    request for the coordinates, or the review request (offset 0, limit 20)
    for the int64 cast of the identifier, of a row of the loaded table that
    is within both thresholds. *)
Theorem tab_requests_kept_rows_only (w : World) (T : DataFrame) (p d : Z) (h : list call) :
  exists k,
    snd (tab2_data_analysis w T p d h) = h ++ k
    /\ Forall (request_about_kept_row w T p d) k.
Proof.
  rewrite tab2_data_analysis_eq.
  destruct (forallb _ (filter_stage T p d));
    [|exists []; rewrite app_nil_r; split; [reflexivity|constructor]].
  destruct (filter_stage T p d) as [|first rest] eqn:E;
    [exists []; rewrite app_nil_r; split; [reflexivity|constructor]|].
  cbv zeta. rewrite <- E.
  set (shown := map _ (filter_stage T p d)).
  pose proof (getitem_mask_sublist shown
                (map (checked w shown) (seq 0 (length shown)))) as Hsub.
  fold (dataframe_with_selections w shown) in Hsub.
  destruct (dataframe_with_selections w shown) as [|s sel] eqn:Es;
    [exists []; rewrite app_nil_r; split; [reflexivity|constructor]|].
  rewrite getLocationDisplayNameByDF_rows.
  destruct (enrich_all_calls w (s :: sel) h) as [(k & Hk & Hpre) _].
  exists k. split.
  - destruct (enrich_all w (s :: sel) h) as [[a|e] h']; exact Hk.
  - apply List.Forall_forall. intros c Hc.
    destruct Hpre as [k' Hk'].
    assert (In c (calls_of (s :: sel))) as Hin
      by (rewrite Hk'; apply in_or_app; left; exact Hc).
    apply in_calls_of in Hin as (s' & Hs' & Hcall).
    apply (sublist_In _ _ _ Hsub) in Hs'.
    unfold shown in Hs'. apply in_map_iff in Hs' as (r & <- & Hr).
    rewrite filter_stage_eq in Hr. apply filter_In in Hr as [Hr Hkeep].
    exists r. split; [exact Hr|]. split; [apply keepb_spec, Hkeep|]. exact Hcall.
Qed.

(** ** The statements of lines 138 to 149 against the functions *)

(** X18: run as statements on the heap, lines 138 to 149 end with the name
    [dataframe] bound to a new object that holds exactly the frame which the
    filter followed by the display block computes, and they raise exactly
    when the display block raises on the filtered frame. *)
Theorem exec_filter_and_display_agrees (w : World) (st : Store) (T : DataFrame) (p d : Z) :
  heap st !! dataframe_ref st = Some (ObjFrame T) ->
  (forall shown, display_block w (filter_stage T p d) = Ok shown ->
     exists st',
       exec_filter_and_display w p d st = Ok st'
       /\ heap st' !! dataframe_ref st' = Some (ObjDisplayFrame shown)
       /\ dataframe_ref st' <> dataframe_ref st)
  /\ (forall e, display_block w (filter_stage T p d) = Raise e ->
        exec_filter_and_display w p d st = Raise e).
Proof.
  intros Hin.
  destruct (exec_filter_spec (fun df => filter_price df p) st T Hin)
    as (st1 & E1 & Hnew1 & Hold1).
  destruct (exec_filter_spec (fun df => filter_distance df d) st1 _ Hnew1)
    as (st2 & E2 & Hnew2 & Hold2).
  change (filter_distance (filter_price T p) d) with (filter_stage T p d) in Hnew2.
  assert (exec_filter_stage p d st = Ok st2) as E12
    by (unfold exec_filter_stage; rewrite E1; exact E2).
  unfold exec_filter_and_display. rewrite E12. simpl.
  unfold exec_display_block. rewrite Hnew2. split.
  - intros shown ->. simpl. eexists. split; [reflexivity|]. simpl.
    split; [apply lookup_insert_eq|].
    destruct (Hold1 _ _ Hin) as [H1 _]. destruct (Hold2 _ _ H1) as [_ Hne].
    congruence.
  - intros e ->. reflexivity.
Qed.

Lemma exec_filter_and_display_agrees_witness :
  exists st',
    exec_filter_and_display world_up 100 1000 (store_of scenario_table) = Ok st'
    /\ heap st' !! dataframe_ref st'
       = Some (ObjDisplayFrame
                 (map (fun r => display_row world_up (id_int world_up (Airbnb_Listing_ID r)) r)
                      (filter_stage scenario_table 100 1000)))
    /\ dataframe_ref st' <> dataframe_ref (store_of scenario_table).
Proof.
  apply (exec_filter_and_display_agrees world_up (store_of scenario_table)
           scenario_table 100 1000); reflexivity.
Defined.

(** ** The list of buildings *)

Lemma string_append_cons (c : ascii) (a b : string) :
  String.append (String c a) b = String c (String.append a b).
Proof. reflexivity. Qed.

Lemma lines_single (a : string) : no_newline a = true -> lines a = [a].
Proof.
  unfold no_newline. induction a as [|c a IH]; [reflexivity|].
  cbn [string_forallb lines].
  intros H. apply andb_true_iff in H as [Hc Ha].
  apply negb_true_iff in Hc. rewrite Hc, (IH Ha). reflexivity.
Qed.

Lemma lines_cut (a s : string) :
  no_newline a = true ->
  lines (String.append a (String newline s)) = a :: lines s.
Proof.
  unfold no_newline. induction a as [|c a IH].
  - intros _. reflexivity.
  - rewrite string_append_cons. cbn [string_forallb lines].
    intros H. apply andb_true_iff in H as [Hc Ha].
    apply negb_true_iff in Hc. rewrite Hc, (IH Ha). reflexivity.
Qed.

Lemma no_newline_append (a b : string) :
  no_newline a = true -> no_newline b = true -> no_newline (String.append a b) = true.
Proof.
  unfold no_newline. induction a as [|c a IH]; [auto|].
  rewrite string_append_cons. cbn [string_forallb].
  intros H Hb. apply andb_true_iff in H as [Hc Ha]. rewrite Hc, (IH Ha Hb). reflexivity.
Qed.

Lemma string_append_assoc (a b c : string) :
  String.append (String.append a b) c = String.append a (String.append b c).
Proof.
  induction a as [|x a IH]; [reflexivity|].
  rewrite !string_append_cons, IH. reflexivity.
Qed.

Lemma bullet_markdown_cons (x y : string) (rest : list string) :
  bullet_markdown (x :: y :: rest)
  = String.append (String.append "- " x) (String newline (bullet_markdown (y :: rest))).
Proof.
  unfold bullet_markdown. cbn [str_join]. rewrite string_append_assoc. reflexivity.
Qed.

(** X19: the markdown of line 286 has one line per building, in list
    order, each made of a dash, a blank and the name, provided no name holds
    a line break; for an empty list it is still one bare bullet. *)
Theorem bullet_markdown_lines (locations : list string) :
  (locations <> [] ->
   (forall x, In x locations -> no_newline x = true) ->
   lines (bullet_markdown locations) = map (String.append "- ") locations)
  /\ lines (bullet_markdown []) = ["- "].
Proof.
  split; [|reflexivity].
  induction locations as [|x rest IH]; [congruence|]. intros _ Hnl.
  assert (no_newline (String.append "- " x) = true) as Hx.
  { apply no_newline_append; [reflexivity | apply Hnl; left; reflexivity]. }
  destruct rest as [|y rest].
  - unfold bullet_markdown. cbn [str_join]. rewrite (lines_single _ Hx). reflexivity.
  - rewrite bullet_markdown_cons, (lines_cut _ _ Hx), IH; [reflexivity|discriminate|].
    intros z Hz. apply Hnl. right. exact Hz.
Qed.

Lemma bullet_markdown_lines_witness :
  lines (bullet_markdown some_locations) = map (String.append "- ") some_locations.
Proof.
  apply (bullet_markdown_lines some_locations); [discriminate|].
  intros x [<-|[<-|[<-|[]]]]; reflexivity.
Defined.

(** ** End to end *)


